(** * Device Tree Explorer: tree model, decoders and diff engine

    A shallow embedding of the decoding and diffing core of the Device Tree
    Explorer (DeviceTree.cpp, DeviceTreeParser.cpp, DeviceTreeDiff.cpp) and
    the properties of it that the specification states.

    Conventions of the embedding:
    - [std::string] is [string]; [std::vector<uint8_t>] is [list byte];
      a [uint32_t] or [uint64_t] is a [Z] with its wrap-around written out;
    - [std::shared_ptr<T>] that may be null is [option T];
    - [std::map<std::string, V>] is an association list kept in ascending
      key order ([StringMap]), because the code iterates over it;
    - a C++ exception is the [Throw] outcome of [result]; reading outside
      the input buffer is the [Undefined] outcome;
    - a node is identified by its position (the child indices from the
      root), which stands for the pointer identity of the C++ object and
      for its parent back-reference. *)

From Stdlib Require Import List String Ascii ZArith NArith Lia Bool.
From Stdlib Require Import Strings.Byte.
From Stdlib Require Import HexString OrderedTypeEx Sorted.

Set Warnings "-register-all".
Import ListNotations.

Local Open Scope string_scope.
Local Open Scope list_scope.

(** ** Small vocabulary *)

(** The double quote character and the strings built from it. *)
Definition dquote : ascii := "034"%char.
Definition str1 (c : ascii) : string := String c EmptyString.

(** [std::string::operator+]. *)
Notation "a +++ b" := (String.append a b) (at level 60, right associativity).

(** ** Value model (DeviceTree.h) *)

Inductive PropertyValue : Type :=
| VString (s : string)
| VBinary (b : list byte)
| VCells (c : list Z)
| VCells64 (c : list Z).

Record DeviceTreeProperty : Type := mkProperty {
  name_ : string;
  value_ : PropertyValue
}.

Definition isString (p : DeviceTreeProperty) : bool :=
  match value_ p with VString _ => true | _ => false end.
Definition isBinary (p : DeviceTreeProperty) : bool :=
  match value_ p with VBinary _ => true | _ => false end.
Definition isCells (p : DeviceTreeProperty) : bool :=
  match value_ p with VCells _ => true | _ => false end.
Definition isCells64 (p : DeviceTreeProperty) : bool :=
  match value_ p with VCells64 _ => true | _ => false end.

(** [oss << std::hex << x]: lower-case digits, no padding. *)
Definition hex_digits (x : Z) : string :=
  match x with
  | Zpos p => HexString.Raw.of_pos p EmptyString
  | _ => "0"
  end.

(** [oss << std::hex << std::setw(2) << std::setfill('0') << x]. *)
Definition hex_digits_w2 (x : Z) : string :=
  let d := hex_digits x in
  if Nat.ltb (String.length d) 2 then "0" +++ d else d.

Definition byte_to_Z (b : byte) : Z := Z.of_N (Byte.to_N b).

(** The loop [for i: if (i > 0) oss << " "; oss << item(i)]. *)
Fixpoint join_items {A : Type} (item : A -> string) (l : list A) : string :=
  match l with
  | [] => EmptyString
  | [x] => item x
  | x :: rest => item x +++ " " +++ join_items item rest
  end.

Definition getValueAsString (p : DeviceTreeProperty) : string :=
  match value_ p with
  | VString s => str1 dquote +++ s +++ str1 dquote
  | VBinary binary =>
      "[" +++ join_items (fun b => "0x" +++ hex_digits_w2 (byte_to_Z b)) binary +++ "]"
  | VCells cells =>
      "<" +++ join_items (fun c => "0x" +++ hex_digits c) cells +++ ">"
  | VCells64 cells =>
      "<" +++ join_items (fun c => "0x" +++ hex_digits c) cells +++ ">"
  end.

Definition getValueAsBinary (p : DeviceTreeProperty) : list byte :=
  match value_ p with VBinary b => b | _ => [] end.
Definition getValueAsCells (p : DeviceTreeProperty) : list Z :=
  match value_ p with VCells c => c | _ => [] end.
Definition getValueAsCells64 (p : DeviceTreeProperty) : list Z :=
  match value_ p with VCells64 c => c | _ => [] end.

(** ** Tree model (DeviceTree.h, DeviceTree.cpp) *)

Inductive DeviceTreeNode : Type :=
| Node (name : string)
       (children : list DeviceTreeNode)
       (properties : list DeviceTreeProperty).

Definition getName (n : DeviceTreeNode) : string :=
  match n with Node name _ _ => name end.
Definition getChildren (n : DeviceTreeNode) : list DeviceTreeNode :=
  match n with Node _ children _ => children end.
Definition getProperties (n : DeviceTreeNode) : list DeviceTreeProperty :=
  match n with Node _ _ properties => properties end.

(** [DeviceTreeNode(name)]: no children, no properties. *)
Definition newNode (name : string) : DeviceTreeNode := Node name [] [].

Definition addChild (n child : DeviceTreeNode) : DeviceTreeNode :=
  match n with
  | Node name children properties => Node name (children ++ [child]) properties
  end.

Definition removeProperty (n : DeviceTreeNode) (name : string) : DeviceTreeNode :=
  match n with
  | Node nm children properties =>
      Node nm children
           (filter (fun prop => negb (String.eqb (name_ prop) name)) properties)
  end.

Definition addProperty (n : DeviceTreeNode) (property : DeviceTreeProperty)
  : DeviceTreeNode :=
  match removeProperty n (name_ property) with
  | Node nm children properties => Node nm children (properties ++ [property])
  end.

Record DeviceTree : Type := mkTree {
  root_ : option DeviceTreeNode;
  sourceFile_ : string
}.

(** The height of a node, the measure that bounds every recursion over it. *)
Fixpoint node_height (n : DeviceTreeNode) : nat :=
  match n with
  | Node _ children _ =>
      S (fold_right (fun c acc => Nat.max (node_height c) acc) 0 children)
  end.

Definition opt_height (n : option DeviceTreeNode) : nat :=
  match n with Some n' => node_height n' | None => 0 end.

(** ** [std::map<std::string, V>] *)

Section StringMap.
Context {V : Type}.

Definition StringMap : Type := list (string * V).

(** [m[k] = v]: insert at the key's place, or overwrite. *)
Fixpoint map_assign (k : string) (v : V) (m : StringMap) : StringMap :=
  match m with
  | [] => [(k, v)]
  | (k', v') :: rest =>
      match String.compare k k' with
      | Lt => (k, v) :: m
      | Eq => (k, v) :: rest
      | Gt => (k', v') :: map_assign k v rest
      end
  end.

(** [m.find(k)], with [None] for [m.end()]. *)
Fixpoint map_find (k : string) (m : StringMap) : option V :=
  match m with
  | [] => None
  | (k', v') :: rest => if String.eqb k k' then Some v' else map_find k rest
  end.

(** [for (x : xs) m[key(x)] = x;] from the empty map. *)
Definition map_of_list (key : V -> string) (xs : list V) : StringMap :=
  fold_left (fun m x => map_assign (key x) x m) xs [].

Definition key_lt (a b : string * V) : Prop :=
  String.compare (fst a) (fst b) = Lt.

(** The iteration order of the map: strictly ascending keys. *)
Definition map_sorted (m : StringMap) : Prop := StronglySorted key_lt m.
End StringMap.
Arguments StringMap V : clear implicits.

(** ** Diff engine (DeviceTreeDiff.h, DeviceTreeDiff.cpp) *)

Inductive DiffType : Type := Added | Removed | Modified | Unchanged.

Record DiffEntry : Type := mkDiffEntry {
  type : DiffType;
  path : string;
  propertyName : string;
  oldValue : string;
  newValue : string;
  description : string
}.

Definition propertyValueToString (prop : DeviceTreeProperty) : string :=
  getValueAsString prop.

Fixpoint list_eqb {A : Type} (eqb : A -> A -> bool) (l1 l2 : list A) : bool :=
  match l1, l2 with
  | [], [] => true
  | x :: r1, y :: r2 => eqb x y && list_eqb eqb r1 r2
  | _, _ => false
  end.

Definition propertiesEqual (prop1 prop2 : DeviceTreeProperty) : bool :=
  if isString prop1 && isString prop2 then
    String.eqb (getValueAsString prop1) (getValueAsString prop2)
  else if isBinary prop1 && isBinary prop2 then
    list_eqb Byte.eqb (getValueAsBinary prop1) (getValueAsBinary prop2)
  else if isCells prop1 && isCells prop2 then
    list_eqb Z.eqb (getValueAsCells prop1) (getValueAsCells prop2)
  else if isCells64 prop1 && isCells64 prop2 then
    list_eqb Z.eqb (getValueAsCells64 prop1) (getValueAsCells64 prop2)
  else false.

(** The entries [compareProperties] pushes onto the cache, in order. *)
Definition compareProperties (baseNode overlayNode : DeviceTreeNode)
           (path : string) : list DiffEntry :=
  let basePropMap := map_of_list name_ (getProperties baseNode) in
  let overlayPropMap := map_of_list name_ (getProperties overlayNode) in
  flat_map
    (fun pair : string * DeviceTreeProperty =>
       match map_find (fst pair) basePropMap with
       | None =>
           [mkDiffEntry Added path (fst pair) EmptyString
                        (propertyValueToString (snd pair))
                        ("Property added: " +++ fst pair)]
       | Some it =>
           if negb (propertiesEqual it (snd pair)) then
             [mkDiffEntry Modified path (fst pair)
                          (propertyValueToString it)
                          (propertyValueToString (snd pair))
                          ("Property modified: " +++ fst pair)]
           else []
       end)
    overlayPropMap
  ++
  flat_map
    (fun pair : string * DeviceTreeProperty =>
       match map_find (fst pair) overlayPropMap with
       | None =>
           [mkDiffEntry Removed path (fst pair)
                        (propertyValueToString (snd pair)) EmptyString
                        ("Property removed: " +++ fst pair)]
       | Some _ => []
       end)
    basePropMap.

(** A loop whose body pushes entries and may run out of fuel. *)
Fixpoint for_each {A B : Type} (xs : list A) (body : A -> option (list B))
  : option (list B) :=
  match xs with
  | [] => Some []
  | x :: rest =>
      match body x with
      | None => None
      | Some out =>
          match for_each rest body with
          | None => None
          | Some outs => Some (out ++ outs)
          end
      end
  end.

(** The entries [compareNodes] pushes onto the cache, in order.  The
    recursion follows the children found through the name-keyed maps, so it
    is bounded by [fuel]; [None] means the fuel ran out. *)
Fixpoint compareNodes (fuel : nat) (baseNode overlayNode : option DeviceTreeNode)
         (path : string) : option (list DiffEntry) :=
  match fuel with
  | O => None
  | S fuel' =>
      match baseNode, overlayNode with
      | None, None => Some []
      | None, Some overlay =>
          let entry := mkDiffEntry Added path EmptyString EmptyString EmptyString
                                   ("Node added: " +++ getName overlay) in
          option_map (cons entry)
            (for_each (getChildren overlay)
               (fun child =>
                  compareNodes fuel' None (Some child)
                               (path +++ "/" +++ getName child)))
      | Some base, None =>
          let entry := mkDiffEntry Removed path EmptyString EmptyString EmptyString
                                   ("Node removed: " +++ getName base) in
          option_map (cons entry)
            (for_each (getChildren base)
               (fun child =>
                  compareNodes fuel' (Some child) None
                               (path +++ "/" +++ getName child)))
      | Some base, Some overlay =>
          let baseChildren := map_of_list getName (getChildren base) in
          let overlayChildren := map_of_list getName (getChildren overlay) in
          match
            for_each overlayChildren
              (fun pair =>
                 compareNodes fuel' (map_find (fst pair) baseChildren)
                              (Some (snd pair)) (path +++ "/" +++ fst pair))
          with
          | None => None
          | Some fromOverlay =>
              match
                for_each baseChildren
                  (fun pair =>
                     match map_find (fst pair) overlayChildren with
                     | None =>
                         compareNodes fuel' (Some (snd pair)) None
                                      (path +++ "/" +++ fst pair)
                     | Some _ => Some []
                     end)
              with
              | None => None
              | Some fromBase =>
                  Some (compareProperties base overlay path
                          ++ fromOverlay ++ fromBase)
              end
          end
      end
  end.

Record DeviceTreeDiff : Type := mkDiff {
  baseTree_ : option DeviceTree;
  overlayTree_ : option DeviceTree;
  diffCache_ : list DiffEntry;
  diffGenerated_ : bool
}.

(** The constructor: empty cache, nothing generated. *)
Definition newDiff (base overlay : option DeviceTree) : DeviceTreeDiff :=
  mkDiff base overlay [] false.

Definition isValid (d : DeviceTreeDiff) : bool :=
  match baseTree_ d, overlayTree_ d with
  | Some _, Some _ => true
  | _, _ => false
  end.

Definition getValidationErrors (d : DeviceTreeDiff) : list string :=
  (match baseTree_ d with None => ["Base device tree is null"] | Some _ => [] end)
  ++ (match overlayTree_ d with None => ["Overlay device tree is null"] | Some _ => [] end).

(** Fuel that [compareNodes] cannot exhaust on the two roots. *)
Definition diff_fuel (base overlay : option DeviceTreeNode) : nat :=
  S (Nat.max (opt_height base) (opt_height overlay)).

(** [generateDiffInternal]: the engine after the call. *)
Definition generateDiffInternal (d : DeviceTreeDiff) : option DeviceTreeDiff :=
  let cleared := mkDiff (baseTree_ d) (overlayTree_ d) [] (diffGenerated_ d) in
  match baseTree_ d, overlayTree_ d with
  | Some base, Some overlay =>
      match compareNodes (diff_fuel (root_ base) (root_ overlay))
                         (root_ base) (root_ overlay) "/" with
      | None => None
      | Some entries =>
          Some (mkDiff (baseTree_ d) (overlayTree_ d) entries true)
      end
  | _, _ => Some cleared
  end.

(** [generateDiff]: the engine after the call and the entries returned. *)
Definition generateDiff (d : DeviceTreeDiff)
  : option (DeviceTreeDiff * list DiffEntry) :=
  if diffGenerated_ d then Some (d, diffCache_ d)
  else
    match generateDiffInternal d with
    | None => None
    | Some d' => Some (d', diffCache_ d')
    end.

(** ** [std::getline(stream, line, delim)] *)

(** One call on a stream holding [s]: [None] when nothing is left to
    extract, else the extracted text and what remains after the delimiter. *)
Fixpoint getline (delim : ascii) (s : string) : option (string * string) :=
  match s with
  | EmptyString => None
  | String c rest =>
      if Ascii.eqb c delim then Some (EmptyString, rest)
      else
        match getline delim rest with
        | None => Some (str1 c, EmptyString)
        | Some (l, r) => Some (String c l, r)
        end
  end.

(** The texts that successive calls extract until the first failing call. *)
Fixpoint getlines (delim : ascii) (s : string) : list string :=
  match s with
  | EmptyString => []
  | String c rest =>
      if Ascii.eqb c delim then EmptyString :: getlines delim rest
      else
        match getlines delim rest with
        | [] => [str1 c]
        | l :: ls => String c l :: ls
        end
  end.

(** ** Paths (DeviceTree.cpp) *)

(** A node of a tree is named by the child indices that lead to it from the
    root; the parent back-reference of the node at [p ++ [i]] is the node at
    [p], and two nodes are the same object exactly when their positions are
    equal. *)
Definition position : Type := list nat.

Fixpoint node_at (root : DeviceTreeNode) (pos : position) : option DeviceTreeNode :=
  match pos with
  | [] => Some root
  | i :: rest =>
      match nth_error (getChildren root) i with
      | Some child => node_at child rest
      | None => None
      end
  end.

(** [pathComponents] after the [while (current)] loop of [getFullPath]: the
    names met when walking the parent links from the node up to the root,
    each inserted at the front. *)
Fixpoint pathComponents (root : DeviceTreeNode) (pos : position)
  : option (list string) :=
  match pos with
  | [] => Some [getName root]
  | i :: rest =>
      match nth_error (getChildren root) i with
      | Some child => option_map (cons (getName root)) (pathComponents child rest)
      | None => None
      end
  end.

Definition joinComponents (components : list string) : string :=
  fold_left
    (fun path component =>
       if negb (String.eqb component "/") then path +++ "/" +++ component
       else "/")
    components EmptyString.

(** Each name behind a separator: the text [joinComponents] adds for names
    other than the root's. *)
Definition slashJoin (names : list string) : string :=
  fold_right (fun name acc => "/" +++ name +++ acc) EmptyString names.

(** [getFullPath] of the node at [pos]; [None] when the tree has no node there. *)
Definition getFullPath (root : DeviceTreeNode) (pos : position) : option string :=
  option_map joinComponents (pathComponents root pos).

(** The inner [for] loop of [findNodeByPath]: the first child of that name. *)
Fixpoint findChild (component : string) (children : list DeviceTreeNode)
  : option (nat * DeviceTreeNode) :=
  match children with
  | [] => None
  | child :: rest =>
      if String.eqb (getName child) component then Some (0, child)
      else
        match findChild component rest with
        | Some (i, c) => Some (S i, c)
        | None => None
        end
  end.

(** The [while (std::getline(pathStream, component, '/'))] loop, over the
    components the stream yields; [pos] is the position of [current]. *)
Fixpoint walkComponents (components : list string) (current : DeviceTreeNode)
         (pos : position) : option position :=
  match components with
  | [] => Some pos
  | component :: rest =>
      if String.eqb component EmptyString then walkComponents rest current pos
      else
        match findChild component (getChildren current) with
        | Some (i, child) => walkComponents rest child (pos ++ [i])
        | None => None
        end
  end.

(** [findNodeByPath] called on [this]: the position, below [this], of the
    node returned, [None] for [nullptr]. *)
Definition findNodeByPath (this : DeviceTreeNode) (path : string) : option position :=
  if String.eqb path EmptyString || String.eqb path "/" then Some []
  else
    let currentPath :=
      match path with
      | String c rest => if Ascii.eqb c "/"%char then rest else path
      | EmptyString => path
      end in
    walkComponents (getlines "/"%char currentPath) this [].

(** [DeviceTree::findNodeByPath]. *)
Definition tree_findNodeByPath (t : DeviceTree) (path : string) : option position :=
  match root_ t with
  | None => None
  | Some root => findNodeByPath root path
  end.

(** The nodes the round trip through the path can name: every node on the
    way down is the first of its siblings to bear its name, and that name is
    neither empty nor contains the separator. *)
Fixpoint no_slash (s : string) : bool :=
  match s with
  | EmptyString => true
  | String c rest => negb (Ascii.eqb c "/"%char) && no_slash rest
  end.

Definition good_name (name : string) : Prop :=
  name <> EmptyString /\ no_slash name = true.

Fixpoint firstOfName (name : string) (children : list DeviceTreeNode) (i : nat) : bool :=
  match children, i with
  | [], _ => false
  | child :: _, O => String.eqb (getName child) name
  | child :: rest, S j => negb (String.eqb (getName child) name) && firstOfName name rest j
  end.

Fixpoint addressable (root : DeviceTreeNode) (pos : position) : bool :=
  match pos with
  | [] => true
  | i :: rest =>
      match nth_error (getChildren root) i with
      | None => false
      | Some child =>
          negb (String.eqb (getName child) EmptyString)
          && no_slash (getName child)
          && firstOfName (getName child) (getChildren root) i
          && addressable child rest
      end
  end.

(** ** Outcomes of the decoders *)

Inductive result (A : Type) : Type :=
| Ok (a : A)            (* normal return *)
| Throw (what : string) (* [throw std::runtime_error(what)] *)
| Undefined             (* a read outside the input buffer *)
| OutOfFuel.            (* the bound of the model was reached *)
Arguments Ok {A} a.
Arguments Throw {A} what.
Arguments Undefined {A}.
Arguments OutOfFuel {A}.

Definition bind {A B : Type} (r : result A) (k : A -> result B) : result B :=
  match r with
  | Ok a => k a
  | Throw what => Throw what
  | Undefined => Undefined
  | OutOfFuel => OutOfFuel
  end.

Notation "x <- r ;; k" := (bind r (fun x => k))
  (at level 61, r at next level, right associativity).
Notation "' p <- r ;; k" := (bind r (fun x => match x with p => k end))
  (at level 61, p pattern, r at next level, right associativity).

(** A read that is undefined outside the buffer. *)
Definition defined {A : Type} (o : option A) : result A :=
  match o with Some a => Ok a | None => Undefined end.

Local Open Scope Z_scope.

Definition wrap32 (x : Z) : Z := x mod 2 ^ 32.
Definition wrap64 (x : Z) : Z := x mod 2 ^ 64.

(** ** Binary decoder (DeviceTreeParser.cpp, class DTBParser) *)

Module DTBParser.
Section Host.
(** The byte order of the machine the decoder runs on: the code reads the
    32-bit words of the buffer through a [uint32_t] pointer. *)
Variable hostLittleEndian : bool.

Definition bswap32 (x : Z) : Z :=
  Z.lor (Z.shiftl (Z.land x 255) 24)
    (Z.lor (Z.shiftl (Z.land (Z.shiftr x 8) 255) 16)
       (Z.lor (Z.shiftl (Z.land (Z.shiftr x 16) 255) 8)
          (Z.land (Z.shiftr x 24) 255))).

Definition byte_at (data : list byte) (off : Z) : option Z :=
  if off <? 0 then None
  else option_map byte_to_Z (nth_error data (Z.to_nat off)).

(** [reinterpret_cast<const uint32_t*>(data + off)[0]]. *)
Definition load32 (data : list byte) (off : Z) : option Z :=
  match byte_at data off, byte_at data (off + 1),
        byte_at data (off + 2), byte_at data (off + 3) with
  | Some b0, Some b1, Some b2, Some b3 =>
      Some (if hostLittleEndian
            then b0 + 2 ^ 8 * b1 + 2 ^ 16 * b2 + 2 ^ 24 * b3
            else b3 + 2 ^ 8 * b2 + 2 ^ 16 * b1 + 2 ^ 24 * b0)
  | _, _, _, _ => None
  end.

(** [isLittleEndian ? __builtin_bswap32(p[0]) : p[0]]. *)
Definition read32 (data : list byte) (off : Z) (isLittleEndian : bool)
  : option Z :=
  option_map (fun v => if isLittleEndian then bswap32 v else v)
             (load32 data off).

(** The NUL-terminated string that starts the byte list. *)
Fixpoint cstring_from (bytes : list byte) : option string :=
  match bytes with
  | [] => None
  | b :: rest =>
      if Byte.eqb b x00 then Some EmptyString
      else option_map (String (ascii_of_byte b)) (cstring_from rest)
  end.

Definition cstring (data : list byte) (off : Z) : option string :=
  if off <? 0 then None else cstring_from (skipn (Z.to_nat off) data).

(** The [len] bytes at [off]. *)
Definition read_bytes (data : list byte) (off len : Z) : option (list byte) :=
  if (off <? 0) || (len <? 0) || (Z.of_nat (List.length data) <? off + len) then None
  else Some (firstn (Z.to_nat len) (skipn (Z.to_nat off) data)).

(** The lambda [c >= 32 && c <= 126]. *)
Definition isPrintable (b : byte) : bool :=
  (32 <=? byte_to_Z b) && (byte_to_Z b <=? 126).

(** [parseDTBProperty]: the property and the value stored to [nextOffset]. *)
Definition parseDTBProperty (data : list byte) (offset stringsOffset : Z)
           (isLittleEndian : bool) : result (DeviceTreeProperty * Z) :=
  len <- defined (read32 data (offset + 4) isLittleEndian) ;;
  nameoff <- defined (read32 data (offset + 8) isLittleEndian) ;;
  if 0x1000000 <=? nameoff then Throw "Invalid property name offset"
  else
    propName <- defined (cstring data (stringsOffset + nameoff)) ;;
    if Nat.eqb (String.length propName) 0 then Throw "Empty property name"
    else
      value <-
        (if len =? 0 then Ok (VString EmptyString)
         else
           propValue <- defined (read_bytes data (offset + 12) len) ;;
           if Byte.eqb (last propValue x01) x00 then
             let strValue := removelast propValue in
             if forallb isPrintable strValue
             then Ok (VString (string_of_list_byte strValue))
             else Ok (VBinary propValue)
           else Ok (VBinary propValue)) ;;
      Ok (mkProperty propName value,
          wrap64 (offset + 12 + wrap32 (wrap32 (len + 3) / 4 * 4))).

(** [parseDTBNode] and its [while (currentOffset < nextOffset)] loop.
    [nextOffset] is the value the reference parameter holds on entry; the
    second component of the result is the value it holds on return.  In
    the recursive calls the code passes [currentOffset] both by value, as
    [offset], and by reference, as [nextOffset]. *)
Fixpoint parseDTBNode (fuel : nat) (data : list byte)
         (offset nextOffset stringsOffset : Z) (isLittleEndian : bool)
         {struct fuel} : result (option DeviceTreeNode * Z) :=
  match fuel with
  | O => OutOfFuel
  | S fuel' =>
      token <- defined (read32 data offset isLittleEndian) ;;
      if token =? 0x00000001 then
        nodeName <- defined (cstring data (offset + 4)) ;;
        let name :=
          if String.eqb nodeName EmptyString || String.eqb nodeName "/"
          then "/"%string else nodeName in
        let node := newNode name in
        let nameLen := wrap64 (Z.of_nat (String.length nodeName) + 1) in
        let nameWords := wrap64 (nameLen + 3) / 4 in
        let currentOffset := wrap64 (offset + 4 + nameWords * 4) in
        ' (node', currentOffset') <-
          parseDTBNodeLoop fuel' data node currentOffset nextOffset
                           stringsOffset isLittleEndian ;;
        Ok (Some node', currentOffset')
      else Ok (None, nextOffset)
  end
with parseDTBNodeLoop (fuel : nat) (data : list byte) (node : DeviceTreeNode)
         (currentOffset nextOffset stringsOffset : Z) (isLittleEndian : bool)
         {struct fuel} : result (DeviceTreeNode * Z) :=
  match fuel with
  | O => OutOfFuel
  | S fuel' =>
      if currentOffset <? nextOffset then
        currentTokenValue <- defined (read32 data currentOffset isLittleEndian) ;;
        if currentTokenValue =? 0x00000002 then
          ' (prop, currentOffset') <-
            parseDTBProperty data currentOffset stringsOffset isLittleEndian ;;
          parseDTBNodeLoop fuel' data (addProperty node prop) currentOffset'
                           nextOffset stringsOffset isLittleEndian
        else if currentTokenValue =? 0x00000001 then
          ' (childNode, currentOffset') <-
            parseDTBNode fuel' data currentOffset currentOffset
                         stringsOffset isLittleEndian ;;
          parseDTBNodeLoop fuel' data
                           (match childNode with
                            | Some child => addChild node child
                            | None => node
                            end)
                           currentOffset' nextOffset stringsOffset isLittleEndian
        else if currentTokenValue =? 0x00000003 then
          Ok (node, wrap64 (currentOffset + 4))
        else if currentTokenValue =? 0x00000009 then
          Ok (node, currentOffset)
        else
          parseDTBNodeLoop fuel' data node (wrap64 (currentOffset + 4))
                           nextOffset stringsOffset isLittleEndian
      else Ok (node, currentOffset)
  end.

(** [parseDTBFile] on the bytes of the file: the root handed to
    [tree->setRoot], or [None] when the function returns [false]. *)
Definition parseDTBFile (data : list byte) : result (option DeviceTreeNode) :=
  let fileSize := Z.of_nat (List.length data) in
  if fileSize <? 40 then Throw "File too small to be a valid DTB"
  else
    magic <- defined (load32 data 0) ;;
    totalsize0 <- defined (load32 data 4) ;;
    off_dt_struct0 <- defined (load32 data 8) ;;
    off_dt_strings0 <- defined (load32 data 12) ;;
    off_mem_rsvmap0 <- defined (load32 data 16) ;;
    version0 <- defined (load32 data 20) ;;
    size_dt_strings0 <- defined (load32 data 32) ;;
    size_dt_struct0 <- defined (load32 data 36) ;;
    isLittleEndian <-
      (if magic =? 0xd00dfeed then Ok false
       else if magic =? 0xedfe0dd0 then Ok true
       else Throw "Invalid DTB magic number") ;;
    let norm := fun v : Z => if isLittleEndian : bool then bswap32 v else v in
    let totalsize := norm totalsize0 in
    let off_dt_struct := norm off_dt_struct0 in
    let off_dt_strings := norm off_dt_strings0 in
    let off_mem_rsvmap := norm off_mem_rsvmap0 in
    let version := norm version0 in
    let size_dt_strings := norm size_dt_strings0 in
    let size_dt_struct := norm size_dt_struct0 in
    if negb (totalsize =? fileSize) then Throw "File size mismatch"
    else if (fileSize <=? off_dt_struct) || (fileSize <=? off_dt_strings)
            || (fileSize <=? off_mem_rsvmap)
    then Throw "Invalid offset in DTB header"
    else if fileSize <? wrap32 (off_dt_struct + size_dt_struct)
    then Throw "Structure block extends beyond file"
    else if fileSize <? wrap32 (off_dt_strings + size_dt_strings)
    then Throw "Strings block extends beyond file"
    else if version <? 16 then Throw "DTB version too old"
    else
      let structOffset := off_dt_struct in
      let nextOffset := structOffset in
      ' (rootNode, _) <-
        parseDTBNode (S (S (List.length data))) data structOffset nextOffset
                     off_dt_strings isLittleEndian ;;
      Ok rootNode.

(** [DTBParser::parse]: an exception is caught and [nullptr] returned. *)
Definition parse (filename : string) (data : list byte)
  : result (option DeviceTree) :=
  match parseDTBFile data with
  | Ok (Some root) => Ok (Some (mkTree (Some root) filename))
  | Ok None => Ok None
  | Throw _ => Ok None
  | Undefined => Undefined
  | OutOfFuel => OutOfFuel
  end.
End Host.
End DTBParser.

(** ** [std::string] operations used by the text decoder *)

Local Close Scope Z_scope.

Definition newline : ascii := "010"%char.
Definition tab : ascii := "009"%char.
Definition backslash : ascii := "092"%char.

(** [s.find(pat)], [None] for [npos]. *)
Definition find (pat s : string) : option nat := String.index 0 pat s.

Definition contains (pat s : string) : bool :=
  match find pat s with Some _ => true | None => false end.

(** Membership in the set [" \t"]. *)
Definition is_blank (c : ascii) : bool := Ascii.eqb c " "%char || Ascii.eqb c tab.

(** [s.erase(0, s.find_first_not_of(" \t"))]. *)
Fixpoint ltrim (s : string) : string :=
  match s with
  | EmptyString => EmptyString
  | String c rest => if is_blank c then ltrim rest else s
  end.

(** [s.erase(s.find_last_not_of(" \t") + 1)]. *)
Fixpoint rtrim (s : string) : string :=
  match s with
  | EmptyString => EmptyString
  | String c rest =>
      match rtrim rest with
      | EmptyString => if is_blank c then EmptyString else str1 c
      | kept => String c kept
      end
  end.

(** [s.substr(pos)]. *)
Definition substr_from (pos : nat) (s : string) : string :=
  String.substring pos (String.length s - pos) s.

(** [s[i] == c], where [s[s.size()]] is the NUL character. *)
Definition char_is (s : string) (i : nat) (c : ascii) : bool :=
  match String.get i s with
  | Some c' => Ascii.eqb c' c
  | None => false
  end.

(** [std::stoul(s, nullptr, 16)]: white space, an optional sign, an optional
    [0x] before a digit, then the longest run of hexadecimal digits; [None]
    when it throws (no digit, or a value that an unsigned long, 64 bits
    wide, cannot hold). *)
Definition is_space (c : ascii) : bool :=
  let n := nat_of_ascii c in Nat.eqb n 32 || (Nat.leb 9 n && Nat.leb n 13).

Fixpoint skip_space (s : string) : string :=
  match s with
  | EmptyString => EmptyString
  | String c rest => if is_space c then skip_space rest else s
  end.

Definition is_hex (c : ascii) : bool :=
  match HexString.ascii_to_digit c with Some _ => true | None => false end.

(** The value of the leading digits and how many there are. *)
Fixpoint take_hex (s : string) (acc : Z) (count : nat) : Z * nat :=
  match s with
  | EmptyString => (acc, count)
  | String c rest =>
      match HexString.ascii_to_digit c with
      | Some d => take_hex rest (16 * acc + Z.of_N d)%Z (S count)
      | None => (acc, count)
      end
  end.

Definition stoul16 (s : string) : option Z :=
  let s1 := skip_space s in
  let '(negative, s2) :=
    match s1 with
    | String c rest =>
        if Ascii.eqb c "-"%char then (true, rest)
        else if Ascii.eqb c "+"%char then (false, rest)
        else (false, s1)
    | EmptyString => (false, s1)
    end in
  let s3 :=
    match s2 with
    | String z (String x (String d rest)) =>
        if Ascii.eqb z "0"%char
           && (Ascii.eqb x "x"%char || Ascii.eqb x "X"%char) && is_hex d
        then String d rest else s2
    | _ => s2
    end in
  let '(v, count) := take_hex s3 0%Z 0 in
  if Nat.eqb count 0 then None
  else if (2 ^ 64 <=? v)%Z then None
  else Some (if negative then wrap64 (- v) else v).

(** ** Text decoder (DeviceTreeParser.cpp, class DTSParser) *)

(** The input stream is the list of the lines that [std::getline] has yet
    to extract from it. *)
Definition istream : Type := list string.

Definition open_stream (content : string) : istream := getlines newline content.

Module DTSParser.

(** The [while (std::getline(stream, line))] loop of [parseDTSValue]. *)
Fixpoint continueValue (stream : istream) (fullValue : string)
  : string * istream :=
  match stream with
  | [] => (fullValue, [])
  | line :: rest =>
      match find ";" line with
      | Some semi => (fullValue +++ String.substring 0 semi line, rest)
      | None => continueValue rest (fullValue +++ line)
      end
  end.

(** [parseDTSValue]: the value text and the stream after the call. *)
Definition parseDTSValue (stream : istream) (line : string) : string * istream :=
  let value0 :=
    match find "=" line with
    | Some equalPos => substr_from (equalPos + 1) line
    | None => line
    end in
  let value1 := rtrim (ltrim value0) in
  let value :=
    if char_is value1 (String.length value1 - 1) ";"%char
    then String.substring 0 (String.length value1 - 1) value1
    else value1 in
  if contains (str1 backslash) value then continueValue stream value
  else (value, stream).

(** The token loops of [parseDTSProperty]: each non-empty token, its [0x]
    removed, goes through [std::stoul] and is narrowed to the element
    type; a token that does not parse throws. *)
Fixpoint parseTokens (modulus : Z) (what : string) (tokens : list string)
  : result (list Z) :=
  match tokens with
  | [] => Ok []
  | token :: rest =>
      if String.eqb token EmptyString then parseTokens modulus what rest
      else
        let digits :=
          if String.eqb (String.substring 0 2 token) "0x"
          then substr_from 2 token else token in
        match stoul16 digits with
        | None => Throw (what +++ digits)
        | Some v =>
            vs <- parseTokens modulus what rest ;;
            Ok ((v mod modulus)%Z :: vs)
        end
  end.

Definition Z_to_byte (z : Z) : byte :=
  match Byte.of_N (Z.to_N z) with Some b => b | None => x00 end.

(** [parseDTSProperty]: the property, or the exception, and the stream
    after the call. *)
Definition parseDTSProperty (stream : istream) (line : string)
  : result DeviceTreeProperty * istream :=
  match find "=" line with
  | None => (Throw "Invalid property syntax: missing '='", stream)
  | Some equalPos =>
      let propName := rtrim (ltrim (String.substring 0 equalPos line)) in
      if String.eqb propName EmptyString
      then (Throw "Empty property name", stream)
      else
        let '(value, stream') := parseDTSValue stream line in
        let len := String.length value in
        let inner := String.substring 1 (len - 2) value in
        let propValue :=
          if String.eqb value EmptyString then Ok (VString EmptyString)
          else if char_is value 0 dquote && char_is value (len - 1) dquote
          then Ok (VString inner)
          else if char_is value 0 "<"%char && char_is value (len - 1) ">"%char
          then
            cells <- parseTokens (2 ^ 32) "Invalid cell value: "
                                 (getlines " "%char inner) ;;
            Ok (VCells cells)
          else if char_is value 0 "["%char && char_is value (len - 1) "]"%char
          then
            binary <- parseTokens (2 ^ 8) "Invalid binary value: "
                                  (getlines " "%char inner) ;;
            Ok (VBinary (map Z_to_byte binary))
          else Ok (VString value) in
        (v <- propValue ;; Ok (mkProperty propName v), stream')
  end.

(** Lines the node loops pass over: empty, [//] comment, or starting
    with [*]. *)
Definition skippable (trimmedLine : string) : bool :=
  String.eqb trimmedLine EmptyString
  || (char_is trimmedLine 0 "/"%char && char_is trimmedLine 1 "/"%char)
  || char_is trimmedLine 0 "*"%char.

(** The text before the brace, trimmed on both sides. *)
Definition nameBeforeBrace (line : string) (bracePos : nat) : string :=
  rtrim (ltrim (String.substring 0 bracePos line)).

(** What [node] points to once the loop is left with [top] the innermost
    open node and [below] the nodes open around it: every open node is the
    last child of the one around it. *)
Fixpoint closeAll (top : DeviceTreeNode) (below : list DeviceTreeNode)
  : DeviceTreeNode :=
  match below with
  | [] => top
  | parent :: rest => closeAll (addChild parent top) rest
  end.

(** The inner [while (std::getline(stream, line))] loop of [parseDTSNode].
    [nodeStack] is [top :: below], innermost node first.  The code links a
    child to its parent when it opens it and then changes it through the
    stack; only [nodeStack.back()] is ever changed, so here the child is
    linked to its parent when it leaves the stack, with the same result.
    Every round extracts a line; [fuel] bounds the rounds. *)
Fixpoint parseDTSBody (fuel : nat) (stream : istream)
         (top : DeviceTreeNode) (below : list DeviceTreeNode)
  : result DeviceTreeNode :=
  match fuel with
  | O => OutOfFuel
  | S fuel' =>
      match stream with
      | [] => Ok (closeAll top below)
      | line :: stream' =>
          let trimmedLine := ltrim line in
          if contains "};" trimmedLine then
            match below with
            | parent :: rest =>
                parseDTSBody fuel' stream' (addChild parent top) rest
            | [] => Ok top
            end
          else if skippable trimmedLine then
            parseDTSBody fuel' stream' top below
          else if contains "=" line then
            match parseDTSProperty stream' line with
            | (Ok prop, stream'') =>
                parseDTSBody fuel' stream'' (addProperty top prop) below
            | (_, stream'') =>
                parseDTSBody fuel' stream'' top below
            end
          else
            match find "{" line with
            | Some bracePos =>
                parseDTSBody fuel' stream'
                             (newNode (nameBeforeBrace line bracePos))
                             (top :: below)
            | None => parseDTSBody fuel' stream' top below
            end
      end
  end.

(** [parseDTSNode]: the outer loop looks for the first line with a brace. *)
Fixpoint parseDTSNode (stream : istream) : result (option DeviceTreeNode) :=
  match stream with
  | [] => Ok None
  | line :: rest =>
      let trimmedLine := ltrim line in
      if skippable trimmedLine then parseDTSNode rest
      else if contains "/dts-v1/;" line then parseDTSNode rest
      else
        match find "{" line with
        | Some bracePos =>
            let nodeName0 := nameBeforeBrace line bracePos in
            let nodeName :=
              if String.eqb nodeName0 EmptyString || String.eqb nodeName0 "/"
              then "/" else nodeName0 in
            node <- parseDTSBody (S (List.length rest)) rest (newNode nodeName) [] ;;
            Ok (Some node)
        | None => parseDTSNode rest
        end
  end.

(** [parseDTSFile] on the text of the file. *)
Definition parseDTSFile (content : string) : result (option DeviceTreeNode) :=
  parseDTSNode (open_stream content).

(** [DTSParser::parse]: an exception is caught and [nullptr] returned. *)
Definition parse (filename content : string) : result (option DeviceTree) :=
  match parseDTSFile content with
  | Ok (Some root) => Ok (Some (mkTree (Some root) filename))
  | Ok None => Ok None
  | Throw _ => Ok None
  | Undefined => Undefined
  | OutOfFuel => OutOfFuel
  end.

End DTSParser.

(** ** The inputs of the specification's scenarios *)

Definition quoted (s : string) : string := str1 dquote +++ s +++ str1 dquote.

Definition tree_of (root : DeviceTreeNode) : DeviceTree :=
  mkTree (Some root) EmptyString.

(** Scenario B: [/ { a = "1"; };] against [/ { a = "2"; };]. *)
Definition scenarioB_base : DeviceTree :=
  tree_of (Node "/" [] [mkProperty "a" (VString "1")]).
Definition scenarioB_overlay : DeviceTree :=
  tree_of (Node "/" [] [mkProperty "a" (VString "2")]).

(** Scenario C: [/ { };] against [/ { child@0 { x = <1>; }; };]. *)
Definition scenarioC_base : DeviceTree := tree_of (Node "/" [] []).
Definition scenarioC_overlay : DeviceTree :=
  tree_of (Node "/" [Node "child@0" [] [mkProperty "x" (VCells [1%Z])]] []).

(** Diff ordering: base children b, a; overlay children a, c.  The two
    nodes named a differ in a property, so that comparing them shows. *)
Definition ordering_base : DeviceTreeNode :=
  Node "/" [Node "b" [] []; Node "a" [] [mkProperty "v" (VString "1")]] [].
Definition ordering_overlay : DeviceTreeNode :=
  Node "/" [Node "a" [] [mkProperty "v" (VString "2")]; Node "c" [] []] [].

(** Two siblings of one name. *)
Definition twins : DeviceTreeNode :=
  Node "/" [Node "a" [] []; Node "a" [] [mkProperty "second" (VString "yes")]] [].

(** A tree whose names are all distinct among siblings. *)
Definition sample_tree : DeviceTreeNode :=
  Node "/" [Node "cpus" [Node "cpu@0" [] []] []; Node "soc" [Node "uart@10000000" [] []] []] [].

(** Scenario A as the specification gives it, on one line. *)
Definition scenarioA_one_line : string :=
  "/ { compatible = " +++ quoted "test,device" +++ "; model = "
    +++ quoted "Test Device" +++ "; };".

(** Scenario A with one construct per line. *)
Definition scenarioA_lines : string :=
  "/ {" +++ str1 newline
  +++ "    compatible = " +++ quoted "test,device" +++ ";" +++ str1 newline
  +++ "    model = " +++ quoted "Test Device" +++ ";" +++ str1 newline
  +++ "};" +++ str1 newline.

(** A node with a line that has no equals sign between two properties. *)
Definition missing_equals_text : string :=
  "/ {" +++ str1 newline
  +++ "    a = " +++ quoted "1" +++ ";" +++ str1 newline
  +++ "    b " +++ quoted "oops" +++ ";" +++ str1 newline
  +++ "    c = <0x10 2>;" +++ str1 newline
  +++ "};" +++ str1 newline.

(** A blob with a well-formed header (version 17) whose structure block
    encodes the root, its property x (the string a) and its child c:
    BEGIN_NODE with the empty name, PROP with length 2 and name offset 0 and
    the bytes 61 00, BEGIN_NODE with the name c, END_NODE, END_NODE, END;
    then the strings block, the bytes 78 00. *)
Definition sample_blob : list byte :=
  [ xd0; x0d; xfe; xed;   x00; x00; x00; x66;   x00; x00; x00; x38;
    x00; x00; x00; x64;   x00; x00; x00; x28;   x00; x00; x00; x11;
    x00; x00; x00; x10;   x00; x00; x00; x00;   x00; x00; x00; x02;
    x00; x00; x00; x2c;
    x00; x00; x00; x00;   x00; x00; x00; x00;
    x00; x00; x00; x00;   x00; x00; x00; x00;
    x00; x00; x00; x01;   x00; x00; x00; x00;
    x00; x00; x00; x02;   x00; x00; x00; x02;   x00; x00; x00; x00;
    x61; x00; x00; x00;
    x00; x00; x00; x01;   x63; x00; x00; x00;
    x00; x00; x00; x03;
    x00; x00; x00; x03;
    x00; x00; x00; x09;
    x78; x00 ].

(** ** Further operations of the tree model (DeviceTree.cpp) *)

(** [findProperty], both overloads: the first property of that name, [None]
    for [nullptr]. *)
Fixpoint findPropertyIn (name : string) (properties : list DeviceTreeProperty)
  : option DeviceTreeProperty :=
  match properties with
  | [] => None
  | prop :: rest =>
      if String.eqb (name_ prop) name then Some prop
      else findPropertyIn name rest
  end.

Definition findProperty (n : DeviceTreeNode) (name : string)
  : option DeviceTreeProperty :=
  findPropertyIn name (getProperties n).

(** The [for (child : children_)] loop of [findNodesByName] and
    [findNodesByPattern]: the results of the children, each below the index
    of its child, one after the other. *)
Definition collectChildren (search : DeviceTreeNode -> list position)
  : list DeviceTreeNode -> nat -> list position :=
  fix over (children : list DeviceTreeNode) (i : nat) : list position :=
    match children with
    | [] => []
    | child :: rest => map (cons i) (search child) ++ over rest (S i)
    end.

(** [findNodesByName]: the positions, below the node, of the nodes returned. *)
Fixpoint findNodesByName (n : DeviceTreeNode) (name : string) : list position :=
  match n with
  | Node name_n children _ =>
      (if String.eqb name_n name then [[]] else [])
      ++ collectChildren (fun child => findNodesByName child name) children 0
  end.

(** [findNodesByPattern]: [name_.find(pattern) != npos]. *)
Fixpoint findNodesByPattern (n : DeviceTreeNode) (pattern : string)
  : list position :=
  match n with
  | Node name_n children _ =>
      (if contains pattern name_n then [[]] else [])
      ++ collectChildren (fun child => findNodesByPattern child pattern) children 0
  end.

(** [DeviceTree::validate]: the errors recorded and the value returned. *)
Definition validationErrors (t : DeviceTree) : list string :=
  match root_ t with
  | None => ["No root node"]
  | Some root =>
      match findProperty root "compatible" with
      | None => ["Root node missing 'compatible' property"]
      | Some _ => []
      end
  end.

Definition validate (t : DeviceTree) : bool :=
  match validationErrors t with [] => true | _ => false end.

(** A test that holds at a node and at every node below it. *)
Fixpoint all_nodes (test : DeviceTreeNode -> bool) (n : DeviceTreeNode) : bool :=
  match n with
  | Node _ children _ => test n && forallb (all_nodes test) children
  end.

(** The names of the properties of a node are pairwise distinct and none
    is empty. *)
Fixpoint distinct_names (names : list string) : bool :=
  match names with
  | [] => true
  | name :: rest =>
      negb (existsb (String.eqb name) rest) && distinct_names rest
  end.

Definition properties_named (n : DeviceTreeNode) : bool :=
  forallb (fun prop => negb (String.eqb (name_ prop) EmptyString))
          (getProperties n).

Definition properties_well_named (n : DeviceTreeNode) : bool :=
  properties_named n && distinct_names (map name_ (getProperties n)).

(** The values a 32-bit cell can hold. *)
Definition value_in_range (v : PropertyValue) : bool :=
  match v with
  | VCells cells => forallb (fun c => (0 <=? c)%Z && (c <? 2 ^ 32)%Z) cells
  | _ => true
  end.

Definition properties_in_range (n : DeviceTreeNode) : bool :=
  forallb (fun prop => value_in_range (value_ prop)) (getProperties n).

(** The nodes of a subtree in depth-first order, children in their stored
    order, each with the path the diff engine gives it below [path]. *)
Fixpoint subtreePaths (n : DeviceTreeNode) (path : string)
  : list (string * string) :=
  match n with
  | Node name children _ =>
      (path, name)
      :: flat_map (fun child => subtreePaths child (path +++ "/" +++ getName child))
                  children
  end.

(** ** Queries over the diff (DeviceTreeDiff.cpp) *)

Definition DiffType_eqb (a b : DiffType) : bool :=
  match a, b with
  | Added, Added | Removed, Removed | Modified, Modified
  | Unchanged, Unchanged => true
  | _, _ => false
  end.

Definition isEmpty (s : string) : bool := String.eqb s EmptyString.

(** The filters of [getAddedNodes], [getRemovedNodes] and
    [getModifiedProperties] over the generated entries. *)
Definition addedNodesOf (diff : list DiffEntry) : list DiffEntry :=
  filter (fun entry => DiffType_eqb (type entry) Added
                       && isEmpty (propertyName entry)) diff.

Definition removedNodesOf (diff : list DiffEntry) : list DiffEntry :=
  filter (fun entry => DiffType_eqb (type entry) Removed
                       && isEmpty (propertyName entry)) diff.

Definition modifiedPropertiesOf (diff : list DiffEntry) : list DiffEntry :=
  filter (fun entry => DiffType_eqb (type entry) Modified
                       && negb (isEmpty (propertyName entry))) diff.

(** Each query generates the diff first; the result is the engine after the
    call and the answer. *)
Definition withDiff {A : Type} (d : DeviceTreeDiff) (answer : list DiffEntry -> A)
  : option (DeviceTreeDiff * A) :=
  match generateDiff d with
  | None => None
  | Some (d', diff) => Some (d', answer diff)
  end.

Definition getAddedNodes (d : DeviceTreeDiff) := withDiff d addedNodesOf.
Definition getRemovedNodes (d : DeviceTreeDiff) := withDiff d removedNodesOf.
Definition getModifiedProperties (d : DeviceTreeDiff) := withDiff d modifiedPropertiesOf.
Definition getTotalChanges (d : DeviceTreeDiff) := withDiff d (@List.length DiffEntry).
Definition getAddedCount (d : DeviceTreeDiff) :=
  withDiff d (fun diff => List.length (addedNodesOf diff)).
Definition getRemovedCount (d : DeviceTreeDiff) :=
  withDiff d (fun diff => List.length (removedNodesOf diff)).
Definition getModifiedCount (d : DeviceTreeDiff) :=
  withDiff d (fun diff => List.length (modifiedPropertiesOf diff)).

(** [DiffVisualizer::DiffStats] and [calculateStats] over the entries. *)
Record DiffStats : Type := mkStats {
  totalChanges : nat;
  addedNodes : nat;
  removedNodes : nat;
  modifiedProperties : nat;
  addedProperties : nat;
  removedProperties : nat
}.

Definition countEntry (stats : DiffStats) (entry : DiffEntry) : DiffStats :=
  let '(mkStats total an rn mp ap rp) := stats in
  if isEmpty (propertyName entry) then
    match type entry with
    | Added => mkStats total (S an) rn mp ap rp
    | Removed => mkStats total an (S rn) mp ap rp
    | _ => stats
    end
  else
    match type entry with
    | Added => mkStats total an rn mp (S ap) rp
    | Removed => mkStats total an rn mp ap (S rp)
    | Modified => mkStats total an rn (S mp) ap rp
    | Unchanged => stats
    end.

Definition calculateStats (diff : list DiffEntry) : DiffStats :=
  fold_left countEntry diff (mkStats (List.length diff) 0 0 0 0 0).

(** [DiffVisualizer::filterByType], [filterByPath], [filterByProperty]. *)
Definition filterByType (diff : list DiffEntry) (t : DiffType) : list DiffEntry :=
  filter (fun entry => DiffType_eqb (type entry) t) diff.

Definition filterByPath (diff : list DiffEntry) (pathPattern : string)
  : list DiffEntry :=
  filter (fun entry => contains pathPattern (path entry)) diff.

Definition filterByProperty (diff : list DiffEntry) (propertyPattern : string)
  : list DiffEntry :=
  filter (fun entry => contains propertyPattern (propertyName entry)) diff.

(** What holds of every node the text decoder builds: property names that
    are not empty and pairwise distinct, and cells that fit in 32 bits. *)
Definition decoded_node_ok (n : DeviceTreeNode) : bool :=
  properties_well_named n && properties_in_range n.

(** A line the outer loop of [parseDTSNode] passes over. *)
Definition opens_no_node (line : string) : Prop :=
  DTSParser.skippable (ltrim line) = true
  \/ contains "/dts-v1/;" line = true
  \/ find "{" line = None.

(** No property below the node, if there is one, has an empty name. *)
Definition opt_all_named (n : option DeviceTreeNode) : bool :=
  match n with
  | Some n' => all_nodes properties_named n'
  | None => true
  end.

(** An entry that [calculateStats] counts in one of its five counters. *)
Definition counted (entry : DiffEntry) : Prop :=
  match type entry with
  | Unchanged => False
  | Modified => propertyName entry <> EmptyString
  | _ => True
  end.

(** A test that holds of every character of a string. *)
Fixpoint string_forall (test : ascii -> bool) (s : string) : bool :=
  match s with
  | EmptyString => true
  | String c rest => test c && string_forall test rest
  end.

(** A name that the text decoder reads back as it is: no equals sign, and
    no blank at either end. *)
Definition plain_name (name : string) : bool :=
  string_forall (fun c => negb (Ascii.eqb c "="%char)) name
  && match name with
     | String c _ => negb (is_blank c)
     | EmptyString => false
     end
  && String.eqb (rtrim name) name.

(** A value that its rendering gives back when read as text: a string with
    no backslash, any byte sequence, or 32-bit cells in range. *)
Definition reads_back (v : PropertyValue) : bool :=
  match v with
  | VString s => string_forall (fun c => negb (Ascii.eqb c backslash)) s
  | VBinary _ => true
  | VCells _ => value_in_range v
  | VCells64 _ => false
  end.

(** * Properties *)

(** ** The ordered map *)

Lemma compare_refl (s : string) : String.compare s s = Eq.
Proof. apply String_as_OT.cmp_eq. reflexivity. Qed.

Lemma compare_lt_trans (a b c : string) :
  String.compare a b = Lt -> String.compare b c = Lt -> String.compare a c = Lt.
Proof.
  intros Hab Hbc. apply String_as_OT.cmp_lt.
  apply String_as_OT.lt_trans with b; apply String_as_OT.cmp_lt; assumption.
Qed.

Lemma compare_gt_lt (a b : string) :
  String.compare a b = Gt -> String.compare b a = Lt.
Proof.
  intro H. rewrite String.compare_antisym, H. reflexivity.
Qed.

Lemma compare_lt_neqb (a b : string) :
  String.compare a b = Lt -> String.eqb b a = false.
Proof.
  intro H. destruct (String.eqb_spec b a) as [-> | ]; [ | reflexivity].
  rewrite compare_refl in H. discriminate.
Qed.

Section StringMapFacts.
Context {V : Type}.

Lemma map_assign_In k v (m : StringMap V) x :
  In x (map_assign k v m) -> x = (k, v) \/ In x m.
Proof.
  induction m as [ | [k' v'] rest IH]; simpl.
  - intros [<- | []]. now left.
  - destruct (String.compare k k'); simpl.
    + intros [<- | H]; [now left | right; now right].
    + intros [<- | H]; [now left | now right].
    + intros [<- | H]; [right; now left | ].
      destruct (IH H) as [-> | H']; [now left | right; now right].
Qed.

Lemma map_assign_sorted k v (m : StringMap V) :
  map_sorted m -> map_sorted (map_assign k v m).
Proof.
  unfold map_sorted. induction m as [ | [k' v'] rest IH]; simpl; intro Hs.
  - constructor; constructor.
  - inversion Hs as [ | ? ? Hrest Hall]; subst.
    destruct (String.compare k k') eqn:Hc.
    + apply String.compare_eq_iff in Hc. subst k'.
      constructor; [assumption | ].
      eapply Forall_impl; [ | exact Hall]. intros a Ha. exact Ha.
    + constructor; [assumption | ].
      constructor; [exact Hc | ].
      eapply Forall_impl; [ | exact Hall].
      intros a Ha. unfold key_lt in *. simpl in *.
      eapply compare_lt_trans; eassumption.
    + constructor; [apply IH; assumption | ].
      apply Forall_forall. intros x Hx.
      destruct (map_assign_In _ _ _ _ Hx) as [-> | Hin].
      * unfold key_lt. simpl. now apply compare_gt_lt.
      * rewrite Forall_forall in Hall. now apply Hall.
Qed.

Lemma map_of_list_acc_sorted (key : V -> string) xs (m : StringMap V) :
  map_sorted m ->
  map_sorted (fold_left (fun m x => map_assign (key x) x m) xs m).
Proof.
  revert m. induction xs as [ | x xs IH]; simpl; intros m Hm.
  - assumption.
  - apply IH. now apply map_assign_sorted.
Qed.

Lemma map_of_list_sorted (key : V -> string) xs :
  map_sorted (map_of_list key xs).
Proof. apply map_of_list_acc_sorted. constructor. Qed.

Lemma map_of_list_acc_In (key : V -> string) xs (m : StringMap V) k v :
  In (k, v) (fold_left (fun m x => map_assign (key x) x m) xs m) ->
  In (k, v) m \/ (In v xs /\ key v = k).
Proof.
  revert m. induction xs as [ | x xs IH]; simpl; intros m H.
  - now left.
  - destruct (IH _ H) as [Hm | [Hin Hk]].
    + destruct (map_assign_In _ _ _ _ Hm) as [E | Hm'].
      * inversion E; subst. right. split; [now left | reflexivity].
      * now left.
    + right. split; [now right | assumption].
Qed.

(** What the map holds under a key is an element of the list with that key. *)
Lemma map_of_list_In (key : V -> string) xs k v :
  In (k, v) (map_of_list key xs) -> In v xs /\ key v = k.
Proof.
  intro H. destruct (map_of_list_acc_In key xs [] k v H) as [[] | H']. exact H'.
Qed.

Lemma map_find_In k v (m : StringMap V) :
  map_find k m = Some v -> In (k, v) m.
Proof.
  induction m as [ | [k' v'] rest IH]; simpl; [discriminate | ].
  destruct (String.eqb_spec k k') as [-> | ].
  - intro E. inversion E. now left.
  - intro H. right. now apply IH.
Qed.

(** In a sorted map every entry is the one found under its key. *)
Lemma sorted_find k v (m : StringMap V) :
  map_sorted m -> In (k, v) m -> map_find k m = Some v.
Proof.
  unfold map_sorted. induction 1 as [ | [k' v'] rest Hs IH Hall]; simpl.
  - intros [].
  - intros [E | Hin].
    + inversion E; subst. now rewrite String.eqb_refl.
    + rewrite Forall_forall in Hall. specialize (Hall _ Hin).
      unfold key_lt in Hall. simpl in Hall.
      rewrite (compare_lt_neqb _ _ Hall). now apply IH.
Qed.

Lemma map_assign_keys k v (m : StringMap V) k0 :
  In k0 (map fst (map_assign k v m)) <-> k0 = k \/ In k0 (map fst m).
Proof.
  induction m as [ | [k' v'] rest IH]; simpl.
  - intuition.
  - destruct (String.compare k k') eqn:Hc; simpl.
    + apply String.compare_eq_iff in Hc. subst k'. intuition.
    + intuition.
    + rewrite IH. intuition.
Qed.

Lemma map_of_list_acc_keys (key : V -> string) xs (m : StringMap V) k0 :
  In k0 (map fst (fold_left (fun m x => map_assign (key x) x m) xs m))
  <-> In k0 (map fst m) \/ In k0 (map key xs).
Proof.
  revert m. induction xs as [ | x xs IH]; simpl; intro m.
  - intuition.
  - rewrite IH, map_assign_keys. intuition.
Qed.

(** The keys of the map are the keys of the list's elements. *)
Lemma map_of_list_keys (key : V -> string) xs k0 :
  In k0 (map fst (map_of_list key xs)) <-> In k0 (map key xs).
Proof.
  unfold map_of_list. rewrite map_of_list_acc_keys. simpl. intuition.
Qed.

Lemma map_sorted_keys (m : StringMap V) :
  map_sorted m ->
  StronglySorted (fun a b => String.compare a b = Lt) (map fst m).
Proof.
  unfold map_sorted. induction 1 as [ | x rest Hs IH Hall]; simpl.
  - constructor.
  - constructor; [assumption | ].
    apply Forall_forall. intros k Hk. apply in_map_iff in Hk.
    destruct Hk as [y [<- Hy]]. rewrite Forall_forall in Hall.
    now apply Hall.
Qed.
End StringMapFacts.

(** ** The diff engine *)

Lemma list_eqb_refl {A : Type} (eqb : A -> A -> bool) (l : list A) :
  (forall x, eqb x x = true) -> list_eqb eqb l l = true.
Proof.
  intro Hrefl. induction l as [ | x l IH]; simpl; [reflexivity | ].
  now rewrite Hrefl, IH.
Qed.

Lemma byte_eqb_refl (b : byte) : Byte.eqb b b = true.
Proof. destruct b; reflexivity. Qed.

Lemma propertiesEqual_refl (p : DeviceTreeProperty) : propertiesEqual p p = true.
Proof.
  destruct p as [n [s | b | c | c]]; unfold propertiesEqual; simpl.
  - apply String.eqb_refl.
  - apply list_eqb_refl, byte_eqb_refl.
  - apply list_eqb_refl, Z.eqb_refl.
  - apply list_eqb_refl, Z.eqb_refl.
Qed.

Lemma flat_map_nil {A B : Type} (f : A -> list B) (l : list A) :
  (forall x, In x l -> f x = []) -> flat_map f l = [].
Proof.
  induction l as [ | x l IH]; simpl; intro H; [reflexivity | ].
  rewrite (H x (or_introl eq_refl)), IH; [reflexivity | ].
  intros y Hy. apply H. now right.
Qed.

Lemma compareProperties_refl (n : DeviceTreeNode) (p : string) :
  compareProperties n n p = [].
Proof.
  unfold compareProperties.
  pose proof (map_of_list_sorted name_ (getProperties n)) as Hs.
  rewrite !flat_map_nil; [reflexivity | | ].
  - intros [k v] Hin. simpl. now rewrite (sorted_find k v _ Hs Hin).
  - intros [k v] Hin. simpl. rewrite (sorted_find k v _ Hs Hin).
    now rewrite propertiesEqual_refl.
Qed.

Lemma child_height (n c : DeviceTreeNode) :
  In c (getChildren n) -> node_height c < node_height n.
Proof.
  destruct n as [nm children props]. simpl.
  induction children as [ | x rest IH]; simpl; intros H; [destruct H | ].
  destruct H as [-> | H]; [lia | ]. specialize (IH H). lia.
Qed.

Lemma for_each_nil {A B : Type} (xs : list A) (body : A -> option (list B)) :
  (forall x, In x xs -> body x = Some []) -> for_each xs body = Some [].
Proof.
  induction xs as [ | x xs IH]; simpl; intro H; [reflexivity | ].
  rewrite (H x (or_introl eq_refl)), IH; [reflexivity | ].
  intros y Hy. apply H. now right.
Qed.

Lemma for_each_some {A B : Type} (xs : list A) (body : A -> option (list B)) :
  (forall x, In x xs -> exists out, body x = Some out) ->
  exists outs, for_each xs body = Some outs.
Proof.
  induction xs as [ | x xs IH]; simpl; intro H; [now exists [] | ].
  destruct (H x (or_introl eq_refl)) as [out ->].
  destruct IH as [outs ->]; [intros y Hy; apply H; now right | ].
  now exists (out ++ outs).
Qed.

Lemma for_each_filter {A B : Type} (keep : A -> bool) (xs : list A)
      (body : A -> option (list B)) :
  for_each xs (fun x => if keep x then body x else Some [])
  = for_each (filter keep xs) body.
Proof.
  induction xs as [ | x xs IH]; simpl; [reflexivity | ].
  rewrite IH. destruct (keep x); simpl; [reflexivity | ].
  destruct (for_each (filter keep xs) body); reflexivity.
Qed.

(** A node compared with itself pushes nothing, whatever the path. *)
Lemma compareNodes_refl (fuel : nat) :
  forall (n : DeviceTreeNode) (p : string),
    node_height n < fuel -> compareNodes fuel (Some n) (Some n) p = Some [].
Proof.
  induction fuel as [ | fuel IH]; intros n p Hh; [lia | ].
  simpl.
  pose proof (map_of_list_sorted getName (getChildren n)) as Hs.
  rewrite for_each_nil.
  - rewrite for_each_nil.
    + now rewrite compareProperties_refl.
    + intros [k c] Hin. simpl. now rewrite (sorted_find k c _ Hs Hin).
  - intros [k c] Hin. simpl. rewrite (sorted_find k c _ Hs Hin).
    apply IH. apply map_of_list_In in Hin. destruct Hin as [Hin _].
    apply child_height in Hin. lia.
Qed.

(** With fuel above both heights the comparison returns. *)
Ltac run_for_each :=
  match goal with
  | |- context [for_each ?xs ?body] =>
      let outs := fresh "outs" in
      destruct (for_each_some xs body) as [outs ->]
  end.

Lemma compareNodes_total (fuel : nat) :
  forall (b o : option DeviceTreeNode) (p : string),
    opt_height b < fuel -> opt_height o < fuel ->
    exists entries, compareNodes fuel b o p = Some entries.
Proof.
  induction fuel as [ | fuel IH]; intros b o p Hb Ho; [lia | ].
  destruct b as [base | ], o as [overlay | ]; simpl in *.
  - run_for_each.
    { intros [k c] Hin. simpl. apply map_of_list_In in Hin.
      destruct Hin as [Hin _]. apply child_height in Hin.
      apply IH; [ | simpl; lia].
      destruct (map_find k _) as [c' | ] eqn:Hf; simpl; [ | lia].
      apply map_find_In, map_of_list_In in Hf. destruct Hf as [Hf _].
      apply child_height in Hf. lia. }
    run_for_each.
    { intros [k c] Hin. simpl. destruct (map_find k _); [now exists [] | ].
      apply map_of_list_In in Hin. destruct Hin as [Hin _].
      apply child_height in Hin. apply IH; simpl; lia. }
    eauto.
  - run_for_each.
    { intros c Hin. apply child_height in Hin. apply IH; simpl; lia. }
    simpl. eauto.
  - run_for_each.
    { intros c Hin. apply child_height in Hin. apply IH; simpl; lia. }
    simpl. eauto.
  - eauto.
Qed.

(** The diff is computed for every pair of trees, present or not. *)
Lemma generateDiff_total (d : DeviceTreeDiff) :
  exists d' entries, generateDiff d = Some (d', entries).
Proof.
  unfold generateDiff. destruct (diffGenerated_ d); [eauto | ].
  unfold generateDiffInternal.
  destruct (baseTree_ d) as [base | ]; [ | eauto].
  destruct (overlayTree_ d) as [overlay | ]; [ | eauto].
  destruct (compareNodes_total (diff_fuel (root_ base) (root_ overlay))
              (root_ base) (root_ overlay) "/") as [entries ->];
    [unfold diff_fuel; lia | unfold diff_fuel; lia | eauto].
Qed.

(** C3. Diffing a tree against itself yields no entry at all: the engine
    built from the same tree as base and as overlay returns the empty
    sequence, for every tree (with or without a root). *)
Theorem diff_of_tree_with_itself_is_empty (T : DeviceTree) :
  generateDiff (newDiff (Some T) (Some T))
  = Some (mkDiff (Some T) (Some T) [] true, []).
Proof.
  destruct T as [[root | ] src];
    unfold generateDiff, generateDiffInternal, newDiff;
    cbn [diffGenerated_ baseTree_ overlayTree_ root_ diffCache_].
  - rewrite compareNodes_refl; [reflexivity | ].
    unfold diff_fuel. simpl. lia.
  - reflexivity.
Qed.

(** C4. When the base tree or the overlay tree is absent, the validity
    query answers false and the diff computation returns the empty sequence
    (the engine is left with an empty cache and nothing marked generated);
    the computation returns normally. *)
Theorem absent_tree_gives_invalid_and_empty_diff
        (base overlay : option DeviceTree) :
  base = None \/ overlay = None ->
  isValid (newDiff base overlay) = false
  /\ generateDiff (newDiff base overlay) = Some (newDiff base overlay, []).
Proof.
  intros [-> | ->].
  - split; reflexivity.
  - destruct base; split; reflexivity.
Qed.

Lemma absent_tree_gives_invalid_and_empty_diff_witness :
  isValid (newDiff None (Some scenarioB_overlay)) = false
  /\ generateDiff (newDiff None (Some scenarioB_overlay))
     = Some (newDiff None (Some scenarioB_overlay), []).
Proof.
  apply (absent_tree_gives_invalid_and_empty_diff None (Some scenarioB_overlay)).
  left. reflexivity.
Defined.

Lemma for_each_ext {A B : Type} (xs : list A) (f g : A -> option (list B)) :
  (forall x, f x = g x) -> for_each xs f = for_each xs g.
Proof.
  intro H. induction xs as [ | x xs IH]; simpl; [reflexivity | ].
  now rewrite H, IH.
Qed.

Lemma for_each_Forall {A B : Type} (P : B -> Prop) (xs : list A)
      (body : A -> option (list B)) :
  (forall x out, In x xs -> body x = Some out -> Forall P out) ->
  forall outs, for_each xs body = Some outs -> Forall P outs.
Proof.
  induction xs as [ | x xs IH]; simpl; intros H outs E.
  - inversion E. constructor.
  - destruct (body x) as [out | ] eqn:Hx; [ | discriminate].
    destruct (for_each xs body) as [rest | ] eqn:Hrest; [ | discriminate].
    inversion E; subst. apply Forall_app. split.
    + apply (H x); [now left | assumption].
    + apply IH; [ | reflexivity]. intros y o Hy. apply H. now right.
Qed.

(** Whatever a subtree present only in the overlay contributes is made of
    node-level Added entries. *)
Lemma added_subtree_entries (fuel : nat) :
  forall (overlay : DeviceTreeNode) (p : string) (entries : list DiffEntry),
    compareNodes fuel None (Some overlay) p = Some entries ->
    Forall (fun e => type e = Added /\ propertyName e = EmptyString
                     /\ newValue e = EmptyString) entries.
Proof.
  induction fuel as [ | fuel IH]; intros overlay p entries H; [discriminate | ].
  simpl in H.
  match type of H with
  | option_map _ ?loop = _ => destruct loop as [outs | ] eqn:Hloop
  end; [ | discriminate].
  inversion H; subst. constructor; [now repeat split | ].
  eapply for_each_Forall; [ | exact Hloop].
  intros c out _ Hc. eapply IH. exact Hc.
Qed.

(** C2, as the code has it.  Diffing the empty root against the root with
    the one child child@0 holding x = <1> yields exactly one entry: the
    node-level Added entry of the child, whose path is the root path with
    the separator and the child's name appended.  No entry is pushed for the
    property x: for every subtree present only in the overlay, the engine
    returns, and all it pushes are node-level Added entries with no value. *)
Theorem added_node_yields_node_entries_only :
  option_map snd
    (generateDiff (newDiff (Some scenarioC_base) (Some scenarioC_overlay)))
  = Some [mkDiffEntry Added ("/" +++ "/" +++ "child@0") EmptyString EmptyString
                      EmptyString "Node added: child@0"]
  /\ forall (overlay : DeviceTreeNode) (p : string),
      exists entries,
        compareNodes (S (node_height overlay)) None (Some overlay) p = Some entries
        /\ Forall (fun e => type e = Added /\ propertyName e = EmptyString
                            /\ newValue e = EmptyString) entries.
Proof.
  split; [reflexivity | ].
  intros overlay p.
  destruct (compareNodes_total (S (node_height overlay)) None (Some overlay) p)
    as [entries He]; [simpl; lia | simpl; lia | ].
  exists entries. split; [exact He | ].
  eapply added_subtree_entries. exact He.
Qed.

(** C2 as stated fails: the diff of scenario C is not an Added node entry
    at /child@0 followed by an Added entry for the property x. *)
Lemma scenarioC_has_no_property_entry :
  ~ exists d e1 e2,
      generateDiff (newDiff (Some scenarioC_base) (Some scenarioC_overlay))
      = Some (d, [e1; e2])
      /\ type e1 = Added /\ propertyName e1 = EmptyString /\ path e1 = "/child@0"
      /\ type e2 = Added /\ propertyName e2 = "x" /\ path e2 = "/child@0".
Proof.
  intros [d [e1 [e2 [H _]]]]. vm_compute in H. discriminate.
Qed.

(** C6, as the code has it.  Diffing a = "1" against a = "2" yields exactly
    one entry, Modified, at path "/", for property a, whose old and new
    values are the texts enclosed in double quotes; a string value is always
    rendered between double quotes. *)
Theorem modified_string_is_rendered_quoted :
  option_map snd
    (generateDiff (newDiff (Some scenarioB_base) (Some scenarioB_overlay)))
  = Some [mkDiffEntry Modified "/" "a" (quoted "1") (quoted "2")
                      "Property modified: a"]
  /\ forall name s,
      propertyValueToString (mkProperty name (VString s))
      = str1 dquote +++ s +++ str1 dquote.
Proof.
  split; [reflexivity | ]. intros name s. reflexivity.
Qed.

(** C6 as stated fails: the one entry of scenario B does not carry the
    bare texts 1 and 2 as its old and new values. *)
Lemma scenarioB_values_are_not_bare :
  ~ exists d e,
      generateDiff (newDiff (Some scenarioB_base) (Some scenarioB_overlay))
      = Some (d, [e])
      /\ type e = Modified /\ path e = "/" /\ propertyName e = "a"
      /\ oldValue e = "1" /\ newValue e = "2".
Proof.
  intros [d [e [H [_ [_ [_ [Hold _]]]]]]].
  vm_compute in H. inversion H; subst e. vm_compute in Hold. discriminate.
Qed.

(** C7. With both nodes present, the children of each side are enumerated
    through a map keyed by name: its keys are the children's names, in
    strictly ascending lexicographic order.  The entries are those of the
    properties, then those of the pass over the overlay's names (a child
    compared with its namesake in the base, or added), then those of the
    pass over the names only the base has (removed).  For base children b, a
    and overlay children a, c: the comparison of a, then c added, then b
    removed. *)
Theorem children_compared_in_name_order :
  (forall (base overlay : DeviceTreeNode) (p : string),
      let baseChildren := map_of_list getName (getChildren base) in
      let overlayChildren := map_of_list getName (getChildren overlay) in
      let fuel := Nat.max (node_height base) (node_height overlay) in
      StronglySorted (fun a b => String.compare a b = Lt) (map fst overlayChildren)
      /\ StronglySorted (fun a b => String.compare a b = Lt) (map fst baseChildren)
      /\ (forall k, In k (map fst overlayChildren)
                    <-> In k (map getName (getChildren overlay)))
      /\ (forall k, In k (map fst baseChildren)
                    <-> In k (map getName (getChildren base)))
      /\ exists fromOverlay fromBase,
          for_each overlayChildren
            (fun pair => compareNodes fuel (map_find (fst pair) baseChildren)
                                      (Some (snd pair)) (p +++ "/" +++ fst pair))
          = Some fromOverlay
          /\ for_each
               (filter (fun pair =>
                          match map_find (fst pair) overlayChildren with
                          | None => true
                          | Some _ => false
                          end) baseChildren)
               (fun pair => compareNodes fuel (Some (snd pair)) None
                                         (p +++ "/" +++ fst pair))
             = Some fromBase
          /\ compareNodes (S fuel) (Some base) (Some overlay) p
             = Some (compareProperties base overlay p ++ fromOverlay ++ fromBase))
  /\ compareNodes (diff_fuel (Some ordering_base) (Some ordering_overlay))
                  (Some ordering_base) (Some ordering_overlay) "/"
     = Some [mkDiffEntry Modified "//a" "v" (quoted "1") (quoted "2")
                         "Property modified: v";
             mkDiffEntry Added "//c" EmptyString EmptyString EmptyString
                         "Node added: c";
             mkDiffEntry Removed "//b" EmptyString EmptyString EmptyString
                         "Node removed: b"].
Proof.
  split; [ | reflexivity].
  intros base overlay p baseChildren overlayChildren fuel.
  split; [apply map_sorted_keys, map_of_list_sorted | ].
  split; [apply map_sorted_keys, map_of_list_sorted | ].
  split; [intro k; apply map_of_list_keys | ].
  split; [intro k; apply map_of_list_keys | ].
  destruct (compareNodes_total (S fuel) (Some base) (Some overlay) p)
    as [entries He]; [simpl; lia | simpl; lia | ].
  pose proof He as Hrun. simpl in He.
  fold baseChildren overlayChildren in He.
  match type of He with
  | match ?loop with _ => _ end = _ =>
      destruct loop as [fromOverlay | ] eqn:Ho
  end; [ | discriminate].
  match type of He with
  | match ?loop with _ => _ end = _ =>
      destruct loop as [fromBase | ] eqn:Hb
  end; [ | discriminate].
  exists fromOverlay, fromBase. split; [exact Ho | ].
  split; [ | rewrite Hrun, <- He; reflexivity].
  rewrite <- for_each_filter, <- Hb.
  apply for_each_ext. intros [k c]. simpl.
  destruct (map_find k overlayChildren); reflexivity.
Qed.

(** ** Paths *)

Lemma append_assoc (a b c : string) : (a +++ b) +++ c = a +++ b +++ c.
Proof. induction a as [ | x a IH]; simpl; [reflexivity | now rewrite IH]. Qed.

Lemma append_empty_r (a : string) : a +++ EmptyString = a.
Proof. induction a as [ | x a IH]; simpl; [reflexivity | now rewrite IH]. Qed.

(** [getlines] lists what successive [getline] calls extract. *)
Lemma getlines_getline (delim : ascii) (s : string) :
  getlines delim s =
  match getline delim s with
  | None => []
  | Some (l, r) => l :: getlines delim r
  end.
Proof.
  induction s as [ | c s IH]; simpl; [reflexivity | ].
  destruct (Ascii.eqb c delim); [reflexivity | ].
  rewrite IH. destruct (getline delim s) as [[l r] | ]; reflexivity.
Qed.

Lemma getlines_name_then_slash (name rest : string) :
  no_slash name = true ->
  getlines "/"%char (name +++ String "/"%char rest)
  = name :: getlines "/"%char rest.
Proof.
  induction name as [ | c name IH]; simpl; intro H; [reflexivity | ].
  apply andb_prop in H. destruct H as [Hc Hn].
  apply negb_true_iff in Hc. rewrite Hc, (IH Hn). reflexivity.
Qed.

Lemma getlines_name (name : string) :
  no_slash name = true -> name <> EmptyString ->
  getlines "/"%char name = [name].
Proof.
  induction name as [ | c name IH]; simpl; intros H Hne; [congruence | ].
  apply andb_prop in H. destruct H as [Hc Hn].
  apply negb_true_iff in Hc. rewrite Hc.
  destruct name as [ | c' name']; [reflexivity | ].
  rewrite (IH Hn); [reflexivity | discriminate].
Qed.

Lemma getlines_slashJoin (names : list string) :
  Forall good_name names ->
  getlines "/"%char (slashJoin names) =
  match names with [] => [] | _ => EmptyString :: names end.
Proof.
  induction 1 as [ | name rest [Hne Hns] Hrest IH]; [reflexivity | ].
  change (slashJoin (name :: rest))
    with (String "/"%char (name +++ slashJoin rest)).
  change (getlines "/"%char (String "/"%char (name +++ slashJoin rest)))
    with (EmptyString :: getlines "/"%char (name +++ slashJoin rest)).
  f_equal. destruct rest as [ | name' rest'].
  - simpl. rewrite append_empty_r. now apply getlines_name.
  - change (slashJoin (name' :: rest'))
      with (String "/"%char (name' +++ slashJoin rest')) in *.
    rewrite getlines_name_then_slash by assumption.
    change (getlines "/"%char (String "/"%char (name' +++ slashJoin rest')))
      with (EmptyString :: getlines "/"%char (name' +++ slashJoin rest')) in IH.
    inversion IH as [E]. now rewrite E.
Qed.

Lemma no_slash_not_root (name : string) : no_slash name = true -> name <> "/".
Proof. intros H ->. discriminate. Qed.

Lemma joinComponents_names (names : list string) (acc : string) :
  Forall good_name names ->
  fold_left
    (fun path component =>
       if negb (String.eqb component "/") then path +++ "/" +++ component
       else "/")
    names acc
  = acc +++ slashJoin names.
Proof.
  intro H. revert acc.
  induction H as [ | name rest [Hne Hns] Hrest IH]; intro acc; simpl.
  - now rewrite append_empty_r.
  - apply no_slash_not_root in Hns. apply String.eqb_neq in Hns.
    rewrite Hns. simpl. rewrite IH.
    change (String "/"%char name) with ("/" +++ name).
    now rewrite !append_assoc.
Qed.

Lemma findChild_first (name : string) (children : list DeviceTreeNode) :
  forall i child,
    nth_error children i = Some child ->
    firstOfName name children i = true ->
    findChild name children = Some (i, child).
Proof.
  induction children as [ | c rest IH]; intros i child Hn Hf.
  - destruct i; discriminate.
  - destruct i as [ | j]; simpl in *.
    + inversion Hn; subst. now rewrite Hf.
    + apply andb_prop in Hf. destruct Hf as [Hc Hf].
      apply negb_true_iff in Hc. rewrite Hc.
      now rewrite (IH j child Hn Hf).
Qed.

(** Below an addressable position the names are good and the walk over
    them arrives at the position. *)
Lemma addressable_walk (pos : position) :
  forall (root : DeviceTreeNode) (acc : position),
    addressable root pos = true ->
    exists names,
      pathComponents root pos = Some (getName root :: names)
      /\ Forall good_name names
      /\ List.length names = List.length pos
      /\ walkComponents names root acc = Some (acc ++ pos).
Proof.
  induction pos as [ | i rest IH]; intros root acc H.
  - exists []. simpl. rewrite app_nil_r. repeat split. constructor.
  - simpl in H. destruct (nth_error (getChildren root) i) as [child | ] eqn:Hn;
      [ | discriminate].
    apply andb_prop in H. destruct H as [H Hrest].
    apply andb_prop in H. destruct H as [H Hfirst].
    apply andb_prop in H. destruct H as [Hne Hns].
    apply negb_true_iff in Hne.
    destruct (IH child (acc ++ [i]) Hrest) as [names [Hp [Hg [Hl Hw]]]].
    exists (getName child :: names). simpl. rewrite Hn, Hp. simpl.
    split; [reflexivity | ].
    split; [constructor; [split; [now apply String.eqb_neq | assumption] | assumption] | ].
    split; [now rewrite Hl | ].
    rewrite Hne, (findChild_first _ _ i child Hn Hfirst), Hw.
    now rewrite <- app_assoc.
Qed.

(** C10, as the code has it.  In a tree whose root is named "/", every node
    reached from the root through nodes that are each the first of their
    siblings to bear their name, with names that are not empty and hold no
    separator, is the node found again under its full path. *)
Theorem full_path_round_trip (root : DeviceTreeNode) (pos : position) :
  getName root = "/" ->
  addressable root pos = true ->
  exists p, getFullPath root pos = Some p /\ findNodeByPath root p = Some pos.
Proof.
  intros Hroot Haddr.
  destruct (addressable_walk pos root [] Haddr) as [names [Hp [Hg [Hl Hw]]]].
  unfold getFullPath. rewrite Hp, Hroot. simpl option_map.
  eexists. split; [reflexivity | ].
  unfold joinComponents. simpl fold_left.
  rewrite joinComponents_names by assumption.
  destruct names as [ | name rest].
  - destruct pos; [reflexivity | discriminate].
  - change ("/" +++ slashJoin (name :: rest))
      with (String "/"%char (String "/"%char (name +++ slashJoin rest))).
    unfold findNodeByPath.
    change (String.eqb (String "/"%char (String "/"%char (name +++ slashJoin rest)))
                       EmptyString) with false.
    change (String.eqb (String "/"%char (String "/"%char (name +++ slashJoin rest)))
                       "/") with false.
    cbn [orb]. rewrite Ascii.eqb_refl.
    change (String "/"%char (name +++ slashJoin rest))
      with (slashJoin (name :: rest)).
    rewrite getlines_slashJoin by assumption.
    simpl in Hw. simpl. exact Hw.
Qed.

Lemma full_path_round_trip_witness :
  exists p, getFullPath sample_tree [1; 0] = Some p
            /\ findNodeByPath sample_tree p = Some [1; 0].
Proof.
  apply (full_path_round_trip sample_tree [1; 0]); reflexivity.
Defined.

(** Each condition is needed: a root not named "/", an empty name, and a
    name holding the separator each break the round trip. *)
Lemma round_trip_conditions_are_needed :
  (getFullPath (Node "soc" [] []) [] = Some "/soc"
   /\ findNodeByPath (Node "soc" [] []) "/soc" = None)
  /\ (getFullPath (Node "/" [Node EmptyString [] []] []) [0] = Some "//"
      /\ findNodeByPath (Node "/" [Node EmptyString [] []] []) "//" = Some [])
  /\ (getFullPath (Node "/" [Node "a/b" [] []] []) [0] = Some "//a/b"
      /\ findNodeByPath (Node "/" [Node "a/b" [] []] []) "//a/b" = None).
Proof. repeat split; reflexivity. Qed.

(** C10 as stated fails: the second of two siblings named a is a node of
    the tree, and its full path leads to the first. *)
Lemma second_twin_is_not_found :
  ~ (forall pos,
        node_at twins pos <> None ->
        exists p, getFullPath twins pos = Some p
                  /\ findNodeByPath twins p = Some pos).
Proof.
  intro H. destruct (H [1]) as [p [Hp Hf]]; [discriminate | ].
  vm_compute in Hp. inversion Hp; subst p. vm_compute in Hf. discriminate.
Qed.

(** ** The binary decoder *)

Section BinaryDecoder.
Variable host : bool.

Local Open Scope Z_scope.

Lemma read_bytes_length (data : list byte) (off len : Z) (bytes : list byte) :
  DTBParser.read_bytes data off len = Some bytes ->
  Z.of_nat (List.length bytes) = len.
Proof.
  unfold DTBParser.read_bytes.
  destruct (off <? 0) eqn:Ho; [discriminate | ].
  destruct (len <? 0) eqn:Hl; [discriminate | ].
  destruct (Z.of_nat (List.length data) <? off + len) eqn:Hd; [discriminate | ].
  simpl. intro E. inversion E; subst.
  apply Z.ltb_ge in Ho, Hl, Hd.
  rewrite length_firstn, length_skipn. lia.
Qed.

(** C9. The value of a property read from the blob, for a property whose
    length and name offset are readable, whose name offset is below the
    limit and leads to a non-empty name, and whose declared bytes lie in
    the buffer: length zero gives the empty string; a positive length
    with a final NUL and printable bytes (32 to 126) before it gives the
    string of those bytes, the NUL dropped; anything else gives the raw
    bytes, as many as declared. *)
Theorem binary_value_classification
        (data : list byte) (offset stringsOffset : Z) (isLittleEndian : bool)
        (len nameoff : Z) (propName : string) (propValue : list byte) :
  DTBParser.read32 host data (offset + 4) isLittleEndian = Some len ->
  DTBParser.read32 host data (offset + 8) isLittleEndian = Some nameoff ->
  nameoff < 0x1000000 ->
  DTBParser.cstring data (stringsOffset + nameoff) = Some propName ->
  propName <> EmptyString ->
  DTBParser.read_bytes data (offset + 12) len = Some propValue ->
  exists value next,
    DTBParser.parseDTBProperty host data offset stringsOffset isLittleEndian
    = Ok (mkProperty propName value, next)
    /\ (len = 0 -> value = VString EmptyString)
    /\ (0 < len ->
        last propValue x01 = x00 ->
        Forall (fun b => 32 <= byte_to_Z b <= 126) (removelast propValue) ->
        value = VString (string_of_list_byte (removelast propValue)))
    /\ (0 < len ->
        ~ (last propValue x01 = x00
           /\ Forall (fun b => 32 <= byte_to_Z b <= 126) (removelast propValue)) ->
        value = VBinary propValue /\ Z.of_nat (List.length propValue) = len).
Proof.
  intros Hlen Hoff Hlim Hname Hne Hval.
  pose proof (read_bytes_length _ _ _ _ Hval) as Hsize.
  unfold DTBParser.parseDTBProperty.
  rewrite Hlen, Hoff. cbn [defined bind].
  apply Z.leb_gt in Hlim. rewrite Hlim.
  rewrite Hname. cbn [defined bind].
  destruct propName as [ | c rest]; [congruence | ]. cbn [String.length Nat.eqb].
  destruct (len =? 0) eqn:Hz.
  - apply Z.eqb_eq in Hz. cbn [bind].
    eexists _, _. split; [reflexivity | ].
    split; [reflexivity | ]. split; intros; lia.
  - apply Z.eqb_neq in Hz. rewrite Hval. cbn [defined bind].
    destruct (Byte.eqb (last propValue x01) x00) eqn:Hlast.
    + apply Byte.byte_dec_bl in Hlast.
      destruct (forallb DTBParser.isPrintable (removelast propValue)) eqn:Hpr;
        cbn [bind]; eexists _, _; (split; [reflexivity | ]);
        (split; [intro; lia | ]).
      * split; [reflexivity | ]. intros _ Hnot. exfalso. apply Hnot.
        split; [assumption | ]. rewrite forallb_forall in Hpr.
        apply Forall_forall. intros b Hb. specialize (Hpr b Hb).
        unfold DTBParser.isPrintable in Hpr. apply andb_prop in Hpr.
        destruct Hpr as [H1 H2]. apply Z.leb_le in H1, H2. lia.
      * split; [ | intros; split; [reflexivity | assumption]].
        intros _ _ Hall. exfalso.
        assert (forallb DTBParser.isPrintable (removelast propValue) = true)
          as Habs; [ | congruence].
        apply forallb_forall. intros b Hb.
        rewrite Forall_forall in Hall. specialize (Hall b Hb).
        unfold DTBParser.isPrintable. apply andb_true_intro.
        split; apply Z.leb_le; lia.
    + cbn [bind]. eexists _, _. split; [reflexivity | ].
      split; [intro; lia | ].
      split; [ | intros; split; [reflexivity | assumption]].
      intros _ Hl _. rewrite Hl in Hlast. discriminate.
Qed.
End BinaryDecoder.

Lemma binary_value_classification_witness :
  exists value next,
    DTBParser.parseDTBProperty true sample_blob 64 100 true
    = Ok (mkProperty "x" value, next)
    /\ (2 = 0 -> value = VString EmptyString)%Z
    /\ ((0 < 2)%Z ->
        last [x61; x00] x01 = x00 ->
        Forall (fun b => (32 <= byte_to_Z b <= 126)%Z) (removelast [x61; x00]) ->
        value = VString (string_of_list_byte (removelast [x61; x00])))
    /\ ((0 < 2)%Z ->
        ~ (last [x61; x00] x01 = x00
           /\ Forall (fun b => (32 <= byte_to_Z b <= 126)%Z) (removelast [x61; x00])) ->
        value = VBinary [x61; x00] /\ Z.of_nat (List.length [x61; x00]) = 2%Z).
Proof.
  apply (binary_value_classification true sample_blob 64 100 true 2 0 "x" [x61; x00]);
    try reflexivity.
  discriminate.
Defined.

Section RootLoop.
Variable host : bool.

Local Open Scope Z_scope.

Lemma cstring_from_length (bytes : list byte) (s : string) :
  DTBParser.cstring_from bytes = Some s ->
  (String.length s < List.length bytes)%nat.
Proof.
  revert s. induction bytes as [ | b rest IH]; simpl; intro s; [discriminate | ].
  destruct (Byte.eqb b x00).
  - intro E. inversion E. simpl. lia.
  - destruct (DTBParser.cstring_from rest) as [s' | ]; [ | discriminate].
    intro E. inversion E. simpl. specialize (IH s' eq_refl). lia.
Qed.

Lemma cstring_length (data : list byte) (off : Z) (s : string) :
  DTBParser.cstring data off = Some s ->
  (String.length s < List.length data)%nat.
Proof.
  unfold DTBParser.cstring. destruct (off <? 0); [discriminate | ].
  intro H. apply cstring_from_length in H. rewrite length_skipn in H. lia.
Qed.

Lemma read32_offset_nonneg (data : list byte) (off : Z) (le : bool) (v : Z) :
  DTBParser.read32 host data off le = Some v -> 0 <= off.
Proof.
  unfold DTBParser.read32, DTBParser.load32, DTBParser.byte_at.
  destruct (off <? 0) eqn:Ho; [discriminate | ].
  intros _. now apply Z.ltb_ge in Ho.
Qed.

(** Entered with [nextOffset] equal to [offset], as every call in the code
    enters it, [parseDTBNode] never runs the body of its loop: the node it
    returns has the name read and nothing else. *)
Lemma parseDTBNode_returns_bare_node
      (fuel : nat) (data : list byte) (offset stringsOffset : Z) (le : bool)
      (node : DeviceTreeNode) (next : Z) :
  Z.of_nat (List.length data) < 2 ^ 62 ->
  offset < 2 ^ 62 ->
  DTBParser.parseDTBNode host (S (S fuel)) data offset offset stringsOffset le
  = Ok (Some node, next) ->
  getChildren node = [] /\ getProperties node = [].
Proof.
  intros Hsize Hoff.
  cbn [DTBParser.parseDTBNode].
  destruct (DTBParser.read32 host data offset le) as [token | ] eqn:Htok;
    [ | discriminate].
  apply read32_offset_nonneg in Htok.
  cbn [defined bind]. destruct (token =? 1); [ | discriminate].
  destruct (DTBParser.cstring data (offset + 4)) as [nodeName | ] eqn:Hname;
    [ | discriminate].
  apply cstring_length in Hname.
  cbn [defined bind DTBParser.parseDTBNodeLoop].
  set (nameLen := Z.of_nat (String.length nodeName)) in *.
  assert (0 <= nameLen < 2 ^ 62) as Hn by (unfold nameLen; lia).
  assert (wrap64 (nameLen + 1) = nameLen + 1) as E1
      by (unfold wrap64; apply Z.mod_small; lia).
  rewrite E1.
  assert (wrap64 (nameLen + 1 + 3) = nameLen + 1 + 3) as E2
      by (unfold wrap64; apply Z.mod_small; lia).
  rewrite E2.
  assert (4 <= (nameLen + 1 + 3) / 4 * 4 <= nameLen + 1 + 3) as Hw.
  { split.
    - assert (1 <= (nameLen + 1 + 3) / 4)
        by (apply Z.div_le_lower_bound; lia). lia.
    - rewrite Z.mul_comm. apply Z.mul_div_le. lia. }
  assert (wrap64 (offset + 4 + (nameLen + 1 + 3) / 4 * 4)
          = offset + 4 + (nameLen + 1 + 3) / 4 * 4) as E3
      by (unfold wrap64; apply Z.mod_small; lia).
  rewrite E3.
  assert ((offset + 4 + (nameLen + 1 + 3) / 4 * 4 <? offset) = false) as E4
      by (apply Z.ltb_ge; lia).
  rewrite E4. cbn [bind]. intro E. inversion E; subst. split; reflexivity.
Qed.

Lemma bind_Ok {A B : Type} (r : result A) (k : A -> result B) (b : B) :
  bind r k = Ok b -> exists a, r = Ok a /\ k a = Ok b.
Proof. destruct r; simpl; try discriminate. eauto. Qed.

(** Whatever the structure block encodes, the root that [parseDTBFile]
    hands over has no property and no child. *)
Lemma parseDTBFile_root_is_bare (data : list byte) (root : DeviceTreeNode) :
  Z.of_nat (List.length data) < 2 ^ 62 ->
  DTBParser.parseDTBFile host data = Ok (Some root) ->
  getChildren root = [] /\ getProperties root = [].
Proof.
  intros Hsize. unfold DTBParser.parseDTBFile.
  destruct (Z.of_nat (List.length data) <? 40); [discriminate | ].
  intro H.
  repeat (apply bind_Ok in H; destruct H as [? [_ H]]).
  repeat match type of H with
         | (if ?c then Throw _ else _) = _ =>
             let Hc := fresh "Hc" in destruct c eqn:Hc; [discriminate | ]
         end.
  apply bind_Ok in H. destruct H as [[rootNode next] [Hnode H]].
  inversion H; subst rootNode.
  apply orb_false_iff in Hc0. destruct Hc0 as [Hc0 _].
  apply orb_false_iff in Hc0. destruct Hc0 as [Hc0 _].
  apply Z.leb_gt in Hc0.
  eapply parseDTBNode_returns_bare_node; [exact Hsize | | exact Hnode]. lia.
Qed.
End RootLoop.

(** C1 at the sample blob.  The header is valid and the structure block
    encodes a root with the property x = "a" and the child c, yet the root
    returned has neither, on a host of either byte order; walking the same
    block with the loop bounded by the end of the block finds both. *)
Theorem sample_blob_decodes_to_bare_root (host : bool) :
  DTBParser.parseDTBFile host sample_blob = Ok (Some (Node "/" [] []))
  /\ DTBParser.parseDTBNode host 8 sample_blob 56 100 100 host
     = Ok (Some (Node "/" [Node "c" [] []] [mkProperty "x" (VString "a")]), 92%Z).
Proof.
  destruct host; split; vm_compute; reflexivity.
Qed.

(** ** The text decoder *)

Lemma continueValue_length (stream : istream) (fullValue : string) :
  List.length (snd (DTSParser.continueValue stream fullValue)) <= List.length stream.
Proof.
  revert fullValue. induction stream as [ | line rest IH]; intro fullValue; simpl.
  - lia.
  - destruct (find ";" line); simpl; [lia | ]. specialize (IH (fullValue +++ line)). lia.
Qed.

Lemma parseDTSValue_length (stream : istream) (line : string) :
  List.length (snd (DTSParser.parseDTSValue stream line)) <= List.length stream.
Proof.
  assert (forall (b : bool) (v : string),
             List.length (snd (if b then DTSParser.continueValue stream v
                               else (v, stream))) <= List.length stream) as H.
  { intros [ | ] v; [apply continueValue_length | simpl; lia]. }
  unfold DTSParser.parseDTSValue. cbv zeta. apply H.
Qed.

Lemma parseDTSProperty_length (stream : istream) (line : string) :
  List.length (snd (DTSParser.parseDTSProperty stream line)) <= List.length stream.
Proof.
  unfold DTSParser.parseDTSProperty.
  destruct (find "=" line) as [equalPos | ]; [ | simpl; lia].
  match goal with |- context [if ?c then _ else _] => destruct c end;
    [simpl; lia | ].
  pose proof (parseDTSValue_length stream line) as H.
  destruct (DTSParser.parseDTSValue stream line) as [value stream']. exact H.
Qed.

(** With more fuel than lines the node loop returns a node. *)
Lemma parseDTSBody_total (fuel : nat) :
  forall (stream : istream) (top : DeviceTreeNode) (below : list DeviceTreeNode),
    List.length stream < fuel ->
    exists node, DTSParser.parseDTSBody fuel stream top below = Ok node.
Proof.
  induction fuel as [ | fuel IH]; intros stream top below Hlen; [lia | ].
  destruct stream as [ | line rest]; cbn [DTSParser.parseDTSBody]; [eauto | ].
  simpl in Hlen.
  destruct (contains "};" (ltrim line)).
  { destruct below; [eauto | apply IH; lia]. }
  destruct (DTSParser.skippable (ltrim line)); [apply IH; lia | ].
  destruct (contains "=" line).
  { pose proof (parseDTSProperty_length rest line) as H.
    destruct (DTSParser.parseDTSProperty rest line) as [[prop | what | | ] stream''];
      simpl in H; apply IH; lia. }
  destruct (find "{" line); apply IH; lia.
Qed.

(** The text decoder returns normally on every input: nothing it meets makes
    it throw. *)
Lemma parseDTSNode_total (stream : istream) :
  exists r, DTSParser.parseDTSNode stream = Ok r.
Proof.
  induction stream as [ | line rest IH]; cbn [DTSParser.parseDTSNode]; [eauto | ].
  destruct (DTSParser.skippable (ltrim line)); [exact IH | ].
  destruct (contains "/dts-v1/;" line); [exact IH | ].
  destruct (find "{" line) as [bracePos | ]; [ | exact IH].
  match goal with
  | |- context [DTSParser.parseDTSBody ?f ?s ?t ?b] =>
      destruct (parseDTSBody_total f s t b) as [node ->]; [lia | ]
  end.
  simpl. eauto.
Qed.

(** C5, as the code has it.  The decoder works line by line and does not
    look at what follows the brace on the line that opens a node: the
    one-line sample gives a root named "/" with no property and no child;
    the same text with one construct per line gives the root named "/" with
    exactly the string properties compatible = test,device and
    model = Test Device, in that order, and no child.  No text of a single
    line gives a property or a child. *)
Theorem scenarioA_decoding :
  DTSParser.parseDTSFile scenarioA_one_line = Ok (Some (Node "/" [] []))
  /\ DTSParser.parseDTSFile scenarioA_lines
     = Ok (Some (Node "/" []
                      [mkProperty "compatible" (VString "test,device");
                       mkProperty "model" (VString "Test Device")]))
  /\ forall line : string,
      exists r,
        DTSParser.parseDTSNode [line] = Ok r
        /\ match r with
           | Some root => getProperties root = [] /\ getChildren root = []
           | None => True
           end.
Proof.
  split; [vm_compute; reflexivity | ].
  split; [vm_compute; reflexivity | ].
  intro line. cbn [DTSParser.parseDTSNode].
  destruct (DTSParser.skippable (ltrim line)); [now exists None | ].
  destruct (contains "/dts-v1/;" line); [now exists None | ].
  destruct (find "{" line) as [bracePos | ]; [ | now exists None].
  cbn [List.length DTSParser.parseDTSBody DTSParser.closeAll bind].
  eexists. split; [reflexivity | ]. split; reflexivity.
Qed.

(** C5 as stated fails: the root decoded from the one-line sample does not
    have two properties. *)
Lemma scenarioA_one_line_has_no_property :
  ~ exists root,
      DTSParser.parseDTSFile scenarioA_one_line = Ok (Some root)
      /\ getName root = "/"
      /\ List.length (getProperties root) = 2
      /\ getChildren root = [].
Proof.
  intros [root [H [_ [Hp _]]]]. vm_compute in H. inversion H; subst root.
  discriminate.
Qed.

(** What the property reader throws: the missing-equals error when the line
    has no equals sign, and otherwise the empty-name error or the error of
    a token that is not a number. *)
Lemma parseTokens_throws (modulus : Z) (what : string) (tokens : list string)
      (thrown : string) :
  DTSParser.parseTokens modulus what tokens = Throw thrown ->
  exists digits, thrown = what +++ digits.
Proof.
  induction tokens as [ | token rest IH]; simpl; intro H; [discriminate | ].
  destruct (String.eqb token EmptyString); [now apply IH | ].
  destruct (stoul16 _) as [v | ]; [ | inversion H; eauto].
  destruct (DTSParser.parseTokens modulus what rest) as [vs | w | | ];
    try discriminate.
  simpl in H. inversion H; subst. now apply IH.
Qed.

Lemma parseDTSProperty_throws (stream stream' : istream) (line thrown : string) :
  DTSParser.parseDTSProperty stream line = (Throw thrown, stream') ->
  (find "=" line = None
   /\ thrown = "Invalid property syntax: missing '='" /\ stream' = stream)
  \/ (find "=" line <> None
      /\ (thrown = "Empty property name"
          \/ (exists digits, thrown = "Invalid cell value: " +++ digits)
          \/ (exists digits, thrown = "Invalid binary value: " +++ digits))).
Proof.
  unfold DTSParser.parseDTSProperty.
  destruct (find "=" line) as [equalPos | ];
    [ | intro H; inversion H; left; auto].
  intro H. right. split; [discriminate | ].
  destruct (String.eqb _ EmptyString); [inversion H; auto | ].
  destruct (DTSParser.parseDTSValue stream line) as [value rest].
  cbv zeta in H. inversion H as [[Hv Hs]]. clear H Hs.
  match type of Hv with
  | bind ?e _ = _ => destruct e as [v | w | | ] eqn:He; try discriminate
  end.
  simpl in Hv. inversion Hv; subst w. clear Hv.
  repeat match type of He with
         | (if ?c then _ else _) = _ => destruct c
         end;
    try discriminate.
  - match type of He with
    | bind ?e _ = _ => destruct e as [cells | w | | ] eqn:Hc; try discriminate
    end.
    simpl in He. inversion He; subst w.
    apply parseTokens_throws in Hc. auto.
  - match type of He with
    | bind ?e _ = _ => destruct e as [binary | w | | ] eqn:Hc; try discriminate
    end.
    simpl in He. inversion He; subst w.
    apply parseTokens_throws in Hc. auto.
Qed.

(** C8, as the code has it.  Take a line without the closing mark, read
    inside an open node.  The missing-equals error of the property reader
    is raised exactly for a line with no equals sign, and the node loop
    does not pass it such a line: a line with no equals sign and no brace
    is passed over, the open nodes left as they are and decoding going on
    with the next line.  A line with an equals sign on which the property
    reader throws, whatever the error, costs that property only: the open
    nodes, with the properties read so far, are left as they are and
    decoding goes on with the lines the property reader has left.  In every
    case the decoder returns a node; it does not fail. *)
Theorem line_without_equals_is_skipped
        (fuel : nat) (line : string) (stream : istream)
        (top : DeviceTreeNode) (below : list DeviceTreeNode) :
  contains "};" (ltrim line) = false ->
  List.length stream < fuel ->
  (forall s : istream,
      fst (DTSParser.parseDTSProperty s line)
      = Throw "Invalid property syntax: missing '='"
      <-> contains "=" line = false)
  /\ (contains "=" line = false ->
      contains "{" line = false ->
      DTSParser.parseDTSBody (S fuel) (line :: stream) top below
      = DTSParser.parseDTSBody fuel stream top below)
  /\ (contains "=" line = true ->
      DTSParser.skippable (ltrim line) = false ->
      forall (thrown : string) (stream' : istream),
        DTSParser.parseDTSProperty stream line = (Throw thrown, stream') ->
        DTSParser.parseDTSBody (S fuel) (line :: stream) top below
        = DTSParser.parseDTSBody fuel stream' top below)
  /\ exists node,
      DTSParser.parseDTSBody (S fuel) (line :: stream) top below = Ok node.
Proof.
  intros Hclose Hfuel. split; [ | split; [ | split]].
  - intro s. unfold contains. split.
    + destruct (DTSParser.parseDTSProperty s line) as [r s'] eqn:Hr.
      cbn [fst]. intro H. subst r.
      apply parseDTSProperty_throws in Hr.
      destruct Hr as [[Hnone _] | [_ [Hw | [[digits Hw] | [digits Hw]]]]];
        [now rewrite Hnone | discriminate Hw | | ];
        cbn [append] in Hw; discriminate Hw.
    + unfold DTSParser.parseDTSProperty.
      destruct (find "=" line); [discriminate | reflexivity].
  - intros Heq Hbrace. cbn [DTSParser.parseDTSBody]. rewrite Hclose, Heq.
    unfold contains in Hbrace.
    destruct (find "{" line); [discriminate | ].
    destruct (DTSParser.skippable (ltrim line)); reflexivity.
  - intros Heq Hskip thrown stream' Hthrown.
    cbn [DTSParser.parseDTSBody]. rewrite Hclose, Hskip, Heq, Hthrown.
    reflexivity.
  - apply parseDTSBody_total. simpl. lia.
Qed.

Lemma line_without_equals_is_skipped_witness :
  (DTSParser.parseDTSBody 4 ["    b oops;"; "    c = <0x10 2>;"; "};"]
                          (Node "/" [] [mkProperty "a" (VString "1")]) []
   = DTSParser.parseDTSBody 3 ["    c = <0x10 2>;"; "};"]
                            (Node "/" [] [mkProperty "a" (VString "1")]) []
   /\ exists node,
       DTSParser.parseDTSBody 4 ["    b oops;"; "    c = <0x10 2>;"; "};"]
                              (Node "/" [] [mkProperty "a" (VString "1")]) []
       = Ok node)
  /\ DTSParser.parseDTSBody 4 ["    b = <zz>;"; "    c = <0x10 2>;"; "};"]
                            (Node "/" [] [mkProperty "a" (VString "1")]) []
     = DTSParser.parseDTSBody 3 ["    c = <0x10 2>;"; "};"]
                              (Node "/" [] [mkProperty "a" (VString "1")]) [].
Proof.
  split.
  - destruct (line_without_equals_is_skipped
                3 "    b oops;" ["    c = <0x10 2>;"; "};"]
                (Node "/" [] [mkProperty "a" (VString "1")]) [])
      as [_ [Hskipped [_ Hreturns]]]; [reflexivity | simpl; lia | ].
    split; [apply Hskipped; reflexivity | exact Hreturns].
  - destruct (line_without_equals_is_skipped
                3 "    b = <zz>;" ["    c = <0x10 2>;"; "};"]
                (Node "/" [] [mkProperty "a" (VString "1")]) [])
      as [_ [_ [Hcaught _]]]; [reflexivity | simpl; lia | ].
    apply (Hcaught eq_refl eq_refl "Invalid cell value: zz"). reflexivity.
Defined.

(** C8 as stated fails: a text with a property line that lacks the equals
    sign is decoded, the line passed over and the properties around it
    kept. *)
Lemma missing_equals_is_not_fatal :
  DTSParser.parseDTSFile missing_equals_text
  = Ok (Some (Node "/" []
                   [mkProperty "a" (VString "1");
                    mkProperty "c" (VCells [16%Z; 2%Z])]))
  /\ DTSParser.parse "missing.dts" missing_equals_text <> Ok None.
Proof.
  split; [vm_compute; reflexivity | vm_compute; discriminate].
Qed.

(** ** The properties of a node *)

Lemma findPropertyIn_app (name : string) (l1 l2 : list DeviceTreeProperty) :
  findPropertyIn name (l1 ++ l2) =
  match findPropertyIn name l1 with
  | Some prop => Some prop
  | None => findPropertyIn name l2
  end.
Proof.
  induction l1 as [ | prop l1 IH]; simpl; [reflexivity | ].
  destruct (String.eqb (name_ prop) name); [reflexivity | exact IH].
Qed.

Lemma findPropertyIn_without (name : string) (l : list DeviceTreeProperty) :
  findPropertyIn name
    (filter (fun prop => negb (String.eqb (name_ prop) name)) l) = None.
Proof.
  induction l as [ | prop l IH]; simpl; [reflexivity | ].
  destruct (String.eqb (name_ prop) name) eqn:E; simpl; [exact IH | ].
  now rewrite E.
Qed.

Lemma findPropertyIn_without_other (name other : string)
      (l : list DeviceTreeProperty) :
  other <> name ->
  findPropertyIn other
    (filter (fun prop => negb (String.eqb (name_ prop) name)) l)
  = findPropertyIn other l.
Proof.
  intro Hne. induction l as [ | prop l IH]; simpl; [reflexivity | ].
  destruct (String.eqb (name_ prop) name) eqn:E; simpl.
  - apply String.eqb_eq in E.
    destruct (String.eqb_spec (name_ prop) other) as [E' | _]; [congruence | exact IH].
  - destruct (String.eqb (name_ prop) other); [reflexivity | exact IH].
Qed.

(** X1. A property that was added is the one found under its name, and a
    name that was removed is found no more. *)
Theorem property_lookup_after_update (n : DeviceTreeNode)
        (property : DeviceTreeProperty) (name : string) :
  findProperty (addProperty n property) (name_ property) = Some property
  /\ findProperty (removeProperty n name) name = None.
Proof.
  destruct n as [nm children properties]. unfold findProperty. simpl. split.
  - rewrite findPropertyIn_app, findPropertyIn_without. simpl.
    now rewrite String.eqb_refl.
  - apply findPropertyIn_without.
Qed.

(** X2. Adding or removing a property of one name leaves what is found
    under every other name as it was. *)
Theorem property_update_leaves_other_names
        (n : DeviceTreeNode) (property : DeviceTreeProperty) (other : string) :
  other <> name_ property ->
  findProperty (addProperty n property) other = findProperty n other
  /\ findProperty (removeProperty n (name_ property)) other = findProperty n other.
Proof.
  intro Hne. destruct n as [nm children properties]. unfold findProperty. simpl.
  split.
  - rewrite findPropertyIn_app, findPropertyIn_without_other by assumption.
    destruct (findPropertyIn other properties); [reflexivity | ]. simpl.
    destruct (String.eqb_spec (name_ property) other); [congruence | reflexivity].
  - now apply findPropertyIn_without_other.
Qed.

Lemma property_update_leaves_other_names_witness :
  findProperty (addProperty (Node "/" [] [mkProperty "a" (VString "1")])
                            (mkProperty "b" (VString "2"))) "a"
  = findProperty (Node "/" [] [mkProperty "a" (VString "1")]) "a"
  /\ findProperty (removeProperty (Node "/" [] [mkProperty "a" (VString "1")])
                                  (name_ (mkProperty "b" (VString "2")))) "a"
     = findProperty (Node "/" [] [mkProperty "a" (VString "1")]) "a".
Proof.
  apply (property_update_leaves_other_names
           (Node "/" [] [mkProperty "a" (VString "1")])
           (mkProperty "b" (VString "2")) "a").
  discriminate.
Defined.

Lemma existsb_eqb_In (name : string) (names : list string) :
  existsb (String.eqb name) names = true <-> In name names.
Proof.
  rewrite existsb_exists. split.
  - intros [x [Hin E]]. apply String.eqb_eq in E. now subst.
  - intro H. exists name. split; [assumption | apply String.eqb_refl].
Qed.

Lemma distinct_names_NoDup (names : list string) :
  distinct_names names = true <-> NoDup names.
Proof.
  induction names as [ | name rest IH]; simpl.
  - split; [constructor | reflexivity].
  - rewrite andb_true_iff, negb_true_iff, IH. split.
    + intros [Hn Hd]. constructor; [ | assumption].
      intro Hin. apply existsb_eqb_In in Hin. congruence.
    + intro H. inversion H as [ | ? ? Hnot Hd]; subst. split; [ | assumption].
      destruct (existsb (String.eqb name) rest) eqn:E; [ | reflexivity].
      apply existsb_eqb_In in E. contradiction.
Qed.

Lemma names_without (name : string) (l : list DeviceTreeProperty) :
  map name_ (filter (fun prop => negb (String.eqb (name_ prop) name)) l)
  = filter (fun k => negb (String.eqb k name)) (map name_ l).
Proof.
  induction l as [ | prop l IH]; simpl; [reflexivity | ].
  destruct (String.eqb (name_ prop) name); simpl; now rewrite IH.
Qed.

Lemma NoDup_filter {A : Type} (keep : A -> bool) (l : list A) :
  NoDup l -> NoDup (filter keep l).
Proof.
  induction 1 as [ | x l Hx Hl IH]; simpl; [constructor | ].
  destruct (keep x); [ | assumption].
  constructor; [ | assumption]. intro Hin. apply filter_In in Hin. tauto.
Qed.

Lemma length_without_present (name : string) (names : list string) :
  NoDup names -> In name names ->
  S (List.length (filter (fun k => negb (String.eqb k name)) names))
  = List.length names.
Proof.
  induction 1 as [ | k rest Hk Hd IH]; simpl; [intros [] | ].
  intros [-> | Hin].
  - rewrite String.eqb_refl. simpl. f_equal.
    clear IH Hd. induction rest as [ | k rest IH]; simpl; [reflexivity | ].
    destruct (String.eqb_spec k name) as [-> | ].
    + exfalso. apply Hk. now left.
    + simpl. f_equal. apply IH. intro H. apply Hk. now right.
  - destruct (String.eqb_spec k name) as [-> | ]; [contradiction | ].
    simpl. f_equal. now apply IH.
Qed.

Lemma length_without_absent (name : string) (names : list string) :
  ~ In name names ->
  List.length (filter (fun k => negb (String.eqb k name)) names)
  = List.length names.
Proof.
  induction names as [ | k rest IH]; simpl; intro Hnot; [reflexivity | ].
  destruct (String.eqb_spec k name) as [-> | ].
  - exfalso. apply Hnot. now left.
  - simpl. f_equal. apply IH. intro H. apply Hnot. now right.
Qed.

Lemma findPropertyIn_None (name : string) (l : list DeviceTreeProperty) :
  findPropertyIn name l = None <-> ~ In name (map name_ l).
Proof.
  induction l as [ | prop l IH]; simpl; [tauto | ].
  destruct (String.eqb_spec (name_ prop) name) as [E | Hne].
  - split; [discriminate | ]. intro H. exfalso. apply H. now left.
  - rewrite IH. tauto.
Qed.

(** X3. On a node whose property names are pairwise distinct, adding a
    property keeps them so; the number of properties stays the same when
    the name was there and grows by one when it was not. *)
Theorem addProperty_keeps_names_distinct
        (n : DeviceTreeNode) (property : DeviceTreeProperty) :
  distinct_names (map name_ (getProperties n)) = true ->
  distinct_names (map name_ (getProperties (addProperty n property))) = true
  /\ List.length (getProperties (addProperty n property))
     = match findProperty n (name_ property) with
       | Some _ => List.length (getProperties n)
       | None => S (List.length (getProperties n))
       end.
Proof.
  destruct n as [nm children properties]. unfold findProperty. simpl.
  intro Hd. apply distinct_names_NoDup in Hd. split.
  - apply distinct_names_NoDup. rewrite map_app, names_without. simpl.
    apply NoDup_app; [now apply NoDup_filter | repeat constructor; intros [] | ].
    intros k Hk [<- | []]. apply filter_In in Hk. destruct Hk as [_ Hk].
    now rewrite String.eqb_refl in Hk.
  - rewrite length_app. simpl. rewrite Nat.add_1_r.
    rewrite <- (length_map name_), names_without.
    destruct (findPropertyIn (name_ property) properties) eqn:Hf.
    + rewrite length_without_present; [now rewrite length_map | assumption | ].
      destruct (in_dec string_dec (name_ property) (map name_ properties))
        as [Hin | Hnot]; [assumption | ].
      apply findPropertyIn_None in Hnot. congruence.
    + apply findPropertyIn_None in Hf.
      rewrite length_without_absent by assumption. now rewrite length_map.
Qed.

Lemma addProperty_keeps_names_distinct_witness :
  distinct_names
    (map name_ (getProperties
                  (addProperty (Node "/" [] [mkProperty "a" (VString "1");
                                             mkProperty "b" (VString "2")])
                               (mkProperty "a" (VString "3"))))) = true
  /\ List.length
       (getProperties
          (addProperty (Node "/" [] [mkProperty "a" (VString "1");
                                     mkProperty "b" (VString "2")])
                       (mkProperty "a" (VString "3"))))
     = match findProperty (Node "/" [] [mkProperty "a" (VString "1");
                                        mkProperty "b" (VString "2")])
                          (name_ (mkProperty "a" (VString "3"))) with
       | Some _ => List.length (getProperties
                                  (Node "/" [] [mkProperty "a" (VString "1");
                                                mkProperty "b" (VString "2")]))
       | None => S (List.length (getProperties
                                   (Node "/" [] [mkProperty "a" (VString "1");
                                                 mkProperty "b" (VString "2")])))
       end.
Proof.
  apply (addProperty_keeps_names_distinct
           (Node "/" [] [mkProperty "a" (VString "1"); mkProperty "b" (VString "2")])
           (mkProperty "a" (VString "3"))).
  reflexivity.
Defined.

(** ** What the diff reports *)

Lemma append_length (a b : string) :
  String.length (a +++ b) = String.length a + String.length b.
Proof. induction a as [ | c a IH]; simpl; [reflexivity | now rewrite IH]. Qed.

Lemma append_inj_r (s1 s2 t : string) : s1 +++ t = s2 +++ t -> s1 = s2.
Proof.
  revert s2. induction s1 as [ | c s1 IH]; intros [ | c2 s2] H; simpl in H.
  - reflexivity.
  - exfalso. apply (f_equal String.length) in H. simpl in H.
    rewrite append_length in H. lia.
  - exfalso. apply (f_equal String.length) in H. simpl in H.
    rewrite append_length in H. lia.
  - inversion H as [[Hc Hs]]. f_equal. now apply IH.
Qed.

Lemma list_eqb_eq {A : Type} (eqb : A -> A -> bool) :
  (forall x y, eqb x y = true <-> x = y) ->
  forall l1 l2, list_eqb eqb l1 l2 = true <-> l1 = l2.
Proof.
  intro Hspec. induction l1 as [ | x l1 IH]; intros [ | y l2]; simpl;
    try (split; [discriminate | discriminate]); [tauto | ].
  rewrite andb_true_iff, Hspec, IH. split.
  - intros [-> ->]. reflexivity.
  - intro E. inversion E. tauto.
Qed.

Lemma byte_eqb_eq (x y : byte) : Byte.eqb x y = true <-> x = y.
Proof.
  split; [apply Byte.byte_dec_bl | intros ->; apply byte_eqb_refl].
Qed.

(** X4. Two properties are equal for the diff exactly when they hold the
    same value: the same kind with the same content; the names play no
    part. *)
Theorem propertiesEqual_iff_same_value (prop1 prop2 : DeviceTreeProperty) :
  propertiesEqual prop1 prop2 = true <-> value_ prop1 = value_ prop2.
Proof.
  destruct prop1 as [n1 [s1 | b1 | c1 | c1]], prop2 as [n2 [s2 | b2 | c2 | c2]];
    unfold propertiesEqual, isString, isBinary, isCells, isCells64,
      getValueAsString, getValueAsBinary, getValueAsCells, getValueAsCells64;
    cbn [value_ andb];
    try (split; [discriminate | discriminate]).
  - rewrite String.eqb_eq. split.
    + intro H. inversion H as [E]. apply append_inj_r in E. now subst.
    + intro H. inversion H. reflexivity.
  - rewrite (list_eqb_eq Byte.eqb byte_eqb_eq). split; [now intros -> | ].
    intro H. now inversion H.
  - rewrite (list_eqb_eq Z.eqb Z.eqb_eq). split; [now intros -> | ].
    intro H. now inversion H.
  - rewrite (list_eqb_eq Z.eqb Z.eqb_eq). split; [now intros -> | ].
    intro H. now inversion H.
Qed.

Lemma map_find_None {V : Type} (k : string) (m : StringMap V) :
  map_find k m = None <-> ~ In k (map fst m).
Proof.
  induction m as [ | [k' v'] rest IH]; simpl; [tauto | ].
  destruct (String.eqb_spec k k') as [-> | Hne].
  - split; [discriminate | ]. intro H. exfalso. apply H. now left.
  - rewrite IH. split; intro H; [intros [E | Hin]; [congruence | tauto] | tauto].
Qed.

Lemma property_map_absent (k : string) (n : DeviceTreeNode) :
  map_find k (map_of_list name_ (getProperties n)) = None
  <-> ~ In k (map name_ (getProperties n)).
Proof. now rewrite map_find_None, map_of_list_keys. Qed.

Lemma property_map_present (k : string) (n : DeviceTreeNode) :
  In k (map name_ (getProperties n)) ->
  exists prop, In (k, prop) (map_of_list name_ (getProperties n)).
Proof.
  intro H. apply map_of_list_keys in H. apply in_map_iff in H.
  destruct H as [[k' prop] [E Hin]]. simpl in E. subst. eauto.
Qed.

(** X5. The property comparison reports a name as added exactly when a
    property of the overlay node bears it and none of the base node does,
    and as removed exactly when a property of the base node bears it and
    none of the overlay node does. *)
Theorem property_added_or_removed_iff
        (baseNode overlayNode : DeviceTreeNode) (p k : string) :
  ((exists entry, In entry (compareProperties baseNode overlayNode p)
                  /\ type entry = Added /\ propertyName entry = k)
   <-> In k (map name_ (getProperties overlayNode))
       /\ ~ In k (map name_ (getProperties baseNode)))
  /\ ((exists entry, In entry (compareProperties baseNode overlayNode p)
                     /\ type entry = Removed /\ propertyName entry = k)
      <-> In k (map name_ (getProperties baseNode))
          /\ ~ In k (map name_ (getProperties overlayNode))).
Proof.
  unfold compareProperties. split; split.
  - intros [entry [Hin [Ht Hk]]]. apply in_app_or in Hin.
    destruct Hin as [Hin | Hin]; apply in_flat_map in Hin;
      destruct Hin as [[k' prop] [Hpair Hentry]]; simpl in Hentry.
    + destruct (map_find k' _) as [it | ] eqn:Hf.
      * destruct (negb (propertiesEqual it prop)); [ | destruct Hentry].
        destruct Hentry as [<- | []]. discriminate.
      * destruct Hentry as [<- | []]. simpl in Hk. subst k'. split.
        -- apply map_of_list_keys. apply in_map_iff. now exists (k, prop).
        -- now apply property_map_absent.
    + destruct (map_find k' _); [destruct Hentry | ].
      destruct Hentry as [<- | []]. discriminate.
  - intros [Hin Hnot]. apply property_map_present in Hin.
    destruct Hin as [prop Hin]. apply property_map_absent in Hnot.
    eexists. split.
    + apply in_or_app. left. apply in_flat_map. exists (k, prop).
      split; [exact Hin | ]. simpl. rewrite Hnot. now left.
    + split; reflexivity.
  - intros [entry [Hin [Ht Hk]]]. apply in_app_or in Hin.
    destruct Hin as [Hin | Hin]; apply in_flat_map in Hin;
      destruct Hin as [[k' prop] [Hpair Hentry]]; simpl in Hentry.
    + destruct (map_find k' _) as [it | ] eqn:Hf.
      * destruct (negb (propertiesEqual it prop)); [ | destruct Hentry].
        destruct Hentry as [<- | []]. discriminate.
      * destruct Hentry as [<- | []]. discriminate.
    + destruct (map_find k' _) eqn:Hf; [destruct Hentry | ].
      destruct Hentry as [<- | []]. simpl in Hk. subst k'. split.
      * apply map_of_list_keys. apply in_map_iff. now exists (k, prop).
      * now apply property_map_absent.
  - intros [Hin Hnot]. apply property_map_present in Hin.
    destruct Hin as [prop Hin]. apply property_map_absent in Hnot.
    eexists. split.
    + apply in_or_app. right. apply in_flat_map. exists (k, prop).
      split; [exact Hin | ]. simpl. rewrite Hnot. now left.
    + split; reflexivity.
Qed.

Lemma for_each_flat_map {A B : Type} (xs : list A)
      (body : A -> option (list B)) (out : A -> list B) :
  (forall x, In x xs -> body x = Some (out x)) ->
  for_each xs body = Some (flat_map out xs).
Proof.
  induction xs as [ | x xs IH]; simpl; intro H; [reflexivity | ].
  rewrite (H x (or_introl eq_refl)), IH; [reflexivity | ].
  intros y Hy. apply H. now right.
Qed.

Lemma flat_map_map {A B C : Type} (f : A -> list B) (g : B -> C) (l : list A) :
  flat_map (fun x => map g (f x)) l = map g (flat_map f l).
Proof.
  induction l as [ | x l IH]; simpl; [reflexivity | ].
  now rewrite IH, map_app.
Qed.

Lemma subtreePaths_unfold (n : DeviceTreeNode) (p : string) :
  subtreePaths n p
  = (p, getName n)
    :: flat_map (fun child => subtreePaths child (p +++ "/" +++ getName child))
                (getChildren n).
Proof. destruct n; reflexivity. Qed.

(** X6. A subtree present on one side only is reported node by node, depth
    first with the children in their stored order: one node-level entry for
    each node, Added when only the overlay has the subtree and Removed when
    only the base has it, at the path built from the names on the way down,
    and nothing for the properties. *)
Theorem one_sided_subtree_is_listed_node_by_node
        (n : DeviceTreeNode) (p : string) :
  compareNodes (S (node_height n)) None (Some n) p
  = Some (map (fun '(path, name) =>
                 mkDiffEntry Added path EmptyString EmptyString EmptyString
                             ("Node added: " +++ name))
              (subtreePaths n p))
  /\ compareNodes (S (node_height n)) (Some n) None p
     = Some (map (fun '(path, name) =>
                    mkDiffEntry Removed path EmptyString EmptyString EmptyString
                                ("Node removed: " +++ name))
                 (subtreePaths n p)).
Proof.
  assert (forall fuel n p,
             node_height n < fuel ->
             compareNodes fuel None (Some n) p
             = Some (map (fun '(path, name) =>
                            mkDiffEntry Added path EmptyString EmptyString
                                        EmptyString ("Node added: " +++ name))
                         (subtreePaths n p))
             /\ compareNodes fuel (Some n) None p
                = Some (map (fun '(path, name) =>
                               mkDiffEntry Removed path EmptyString EmptyString
                                           EmptyString ("Node removed: " +++ name))
                            (subtreePaths n p))) as H.
  { clear n p. induction fuel as [ | fuel IH]; intros n p Hh; [lia | ].
    cbn [compareNodes]. rewrite subtreePaths_unfold. cbn [map].
    split.
    - erewrite for_each_flat_map.
      + cbn [option_map]. now rewrite <- flat_map_map.
      + intros c Hc. cbv beta. apply child_height in Hc.
        apply (IH c); lia.
    - erewrite for_each_flat_map.
      + cbn [option_map]. now rewrite <- flat_map_map.
      + intros c Hc. cbv beta. apply child_height in Hc.
        apply (IH c); lia. }
  apply H. lia.
Qed.

(** X7. The diff is computed once: a call of [generateDiff] returns the
    entries it leaves in the cache, leaves the two trees in place, and a
    second call on the engine it leaves returns the same entries and the
    same engine. *)
Theorem generateDiff_is_cached (d : DeviceTreeDiff) :
  exists d' entries,
    generateDiff d = Some (d', entries)
    /\ diffCache_ d' = entries
    /\ baseTree_ d' = baseTree_ d /\ overlayTree_ d' = overlayTree_ d
    /\ generateDiff d' = Some (d', entries).
Proof.
  destruct (generateDiff_total d) as [d' [entries H]].
  exists d', entries. split; [exact H | ].
  unfold generateDiff in *.
  destruct (diffGenerated_ d) eqn:Hgen.
  - injection H as <- <-. rewrite Hgen. repeat split.
  - unfold generateDiffInternal in *.
    destruct (baseTree_ d) as [base | ] eqn:Hb.
    + destruct (overlayTree_ d) as [overlay | ] eqn:Ho.
      * destruct (compareNodes _ _ _ _) as [es | ]; [ | discriminate].
        injection H as <- <-. cbn. repeat split.
      * injection H as <- <-. cbn. rewrite Hgen. repeat split.
    + injection H as <- <-. cbn. rewrite Hgen. repeat split.
Qed.

Lemma countEntry_step (t a r m ap rp : nat) (entry : DiffEntry) :
  let empty := isEmpty (propertyName entry) in
  countEntry (mkStats t a r m ap rp) entry
  = mkStats t
      (a + Nat.b2n (DiffType_eqb (type entry) Added && empty))
      (r + Nat.b2n (DiffType_eqb (type entry) Removed && empty))
      (m + Nat.b2n (DiffType_eqb (type entry) Modified && negb empty))
      (ap + Nat.b2n (DiffType_eqb (type entry) Added && negb empty))
      (rp + Nat.b2n (DiffType_eqb (type entry) Removed && negb empty)).
Proof.
  unfold countEntry.
  destruct (isEmpty (propertyName entry)), (type entry); simpl;
    rewrite ?Nat.add_0_r, ?Nat.add_1_r; reflexivity.
Qed.

Lemma counted_once (entry : DiffEntry) :
  counted entry ->
  let empty := isEmpty (propertyName entry) in
  Nat.b2n (DiffType_eqb (type entry) Added && empty)
  + Nat.b2n (DiffType_eqb (type entry) Removed && empty)
  + Nat.b2n (DiffType_eqb (type entry) Modified && negb empty)
  + Nat.b2n (DiffType_eqb (type entry) Added && negb empty)
  + Nat.b2n (DiffType_eqb (type entry) Removed && negb empty) = 1.
Proof.
  unfold counted, isEmpty.
  destruct (type entry); intro H; cbv zeta;
    destruct (String.eqb_spec (propertyName entry) EmptyString);
    simpl; try reflexivity; contradiction.
Qed.

Lemma length_filter_cons {A : Type} (keep : A -> bool) (x : A) (l : list A) :
  List.length (filter keep (x :: l))
  = Nat.b2n (keep x) + List.length (filter keep l).
Proof. simpl. destruct (keep x); reflexivity. Qed.

Lemma countEntry_fold (diff : list DiffEntry) :
  forall t a r m ap rp,
    let s := fold_left countEntry diff (mkStats t a r m ap rp) in
    totalChanges s = t
    /\ addedNodes s = a + List.length (addedNodesOf diff)
    /\ removedNodes s = r + List.length (removedNodesOf diff)
    /\ modifiedProperties s = m + List.length (modifiedPropertiesOf diff)
    /\ (Forall counted diff ->
        addedNodes s + removedNodes s + modifiedProperties s
        + addedProperties s + removedProperties s
        = a + r + m + ap + rp + List.length diff).
Proof.
  induction diff as [ | entry diff IH]; intros t a r m ap rp.
  - simpl. repeat split; lia.
  - cbn [fold_left]. rewrite countEntry_step. cbv zeta.
    match goal with
    | |- context [fold_left countEntry diff (mkStats ?t' ?a' ?r' ?m' ?ap' ?rp')] =>
        specialize (IH t' a' r' m' ap' rp'); cbv zeta in IH;
        destruct IH as [I1 [I2 [I3 [I4 I5]]]]
    end.
    unfold addedNodesOf, removedNodesOf, modifiedPropertiesOf in *.
    rewrite !length_filter_cons.
    split; [exact I1 | ]. split; [lia | ]. split; [lia | ]. split; [lia | ].
    intro Hall. inversion Hall as [ | ? ? Hc Hrest]; subst.
    specialize (I5 Hrest). pose proof (counted_once entry Hc) as Hone.
    cbv zeta in Hone. cbn [List.length]. lia.
Qed.

(** X8. The statistics of the visualizer agree with the counts of the
    engine: the total is the number of entries, and the added nodes, the
    removed nodes and the modified properties are as many as the entries
    that [getAddedNodes], [getRemovedNodes] and [getModifiedProperties]
    select. *)
Theorem stats_agree_with_engine_counts (diff : list DiffEntry) :
  totalChanges (calculateStats diff) = List.length diff
  /\ addedNodes (calculateStats diff) = List.length (addedNodesOf diff)
  /\ removedNodes (calculateStats diff) = List.length (removedNodesOf diff)
  /\ modifiedProperties (calculateStats diff)
     = List.length (modifiedPropertiesOf diff).
Proof.
  unfold calculateStats.
  destruct (countEntry_fold diff (List.length diff) 0 0 0 0 0)
    as [H1 [H2 [H3 [H4 _]]]].
  cbv zeta in *. repeat split; assumption.
Qed.

Lemma all_nodes_here (test : DeviceTreeNode -> bool) (n : DeviceTreeNode) :
  all_nodes test n = true -> test n = true.
Proof. destruct n. simpl. intro H. now apply andb_prop in H. Qed.

Lemma all_nodes_child (test : DeviceTreeNode -> bool) (n c : DeviceTreeNode) :
  all_nodes test n = true -> In c (getChildren n) -> all_nodes test c = true.
Proof.
  destruct n as [nm children props]. simpl. intros H Hin.
  apply andb_prop in H. destruct H as [_ H].
  rewrite forallb_forall in H. now apply H.
Qed.

Lemma compareProperties_counted (b o : DeviceTreeNode) (p : string) :
  properties_named o = true -> Forall counted (compareProperties b o p).
Proof.
  intro Ho. unfold compareProperties. apply Forall_app. split;
    apply Forall_forall; intros e He; apply in_flat_map in He;
    destruct He as [[k prop] [Hpair He]]; simpl in He.
  - destruct (map_find k _) as [it | ].
    + destruct (negb (propertiesEqual it prop)); [ | destruct He].
      destruct He as [<- | []]. unfold counted. simpl.
      apply map_of_list_In in Hpair. destruct Hpair as [Hin <-].
      unfold properties_named in Ho. rewrite forallb_forall in Ho.
      specialize (Ho prop Hin). apply negb_true_iff in Ho.
      now apply String.eqb_neq.
    + destruct He as [<- | []]. exact I.
  - destruct (map_find k _); [destruct He | ].
    destruct He as [<- | []]. exact I.
Qed.

Lemma compareNodes_counted (fuel : nat) :
  forall (b o : option DeviceTreeNode) (p : string) (entries : list DiffEntry),
    opt_all_named o = true ->
    compareNodes fuel b o p = Some entries ->
    Forall counted entries.
Proof.
  induction fuel as [ | fuel IH]; intros b o p entries Ho H; [discriminate | ].
  destruct b as [base | ], o as [overlay | ]; cbn [compareNodes] in H.
  - destruct (for_each (map_of_list getName (getChildren overlay)) _)
      as [fromOverlay | ] eqn:H1; [ | discriminate].
    destruct (for_each (map_of_list getName (getChildren base)) _)
      as [fromBase | ] eqn:H2; [ | discriminate].
    inversion H; subst. simpl in Ho. apply Forall_app. split.
    { apply compareProperties_counted. now apply all_nodes_here. }
    apply Forall_app. split.
    + eapply for_each_Forall; [ | exact H1].
      intros [k c] out Hin Hout. simpl in Hout.
      eapply IH; [ | exact Hout]. simpl.
      apply map_of_list_In in Hin. destruct Hin as [Hin _].
      eapply all_nodes_child; eassumption.
    + eapply for_each_Forall; [ | exact H2].
      intros [k c] out Hin Hout. simpl in Hout.
      destruct (map_find k _).
      * inversion Hout. constructor.
      * eapply IH; [ | exact Hout]. reflexivity.
  - destruct (for_each (getChildren base) _) as [outs | ] eqn:H1;
      [ | discriminate].
    inversion H; subst. constructor; [exact I | ].
    eapply for_each_Forall; [ | exact H1].
    intros c out Hin Hout. eapply IH; [ | exact Hout]. reflexivity.
  - destruct (for_each (getChildren overlay) _) as [outs | ] eqn:H1;
      [ | discriminate].
    inversion H; subst. constructor; [exact I | ].
    eapply for_each_Forall; [ | exact H1].
    intros c out Hin Hout. eapply IH; [ | exact Hout]. simpl.
    simpl in Ho. eapply all_nodes_child; eassumption.
  - inversion H. constructor.
Qed.

(** X9. When no property of the overlay tree has an empty name, the five
    counters of the statistics add up to the total: every entry of the
    diff is an added or removed node or an added, removed or modified
    property. *)
Theorem stats_counters_add_up (base overlay : DeviceTreeNode) :
  all_nodes properties_named overlay = true ->
  exists d' diff,
    generateDiff (newDiff (Some (tree_of base)) (Some (tree_of overlay)))
    = Some (d', diff)
    /\ totalChanges (calculateStats diff)
       = addedNodes (calculateStats diff) + removedNodes (calculateStats diff)
         + modifiedProperties (calculateStats diff)
         + addedProperties (calculateStats diff)
         + removedProperties (calculateStats diff).
Proof.
  intro Hnamed.
  destruct (generateDiff_total
              (newDiff (Some (tree_of base)) (Some (tree_of overlay))))
    as [d' [diff H]].
  exists d', diff. split; [exact H | ].
  unfold generateDiff, generateDiffInternal, newDiff, tree_of in H.
  cbn [diffGenerated_ baseTree_ overlayTree_ root_ diffCache_] in H.
  destruct (compareNodes _ _ _ _) as [entries | ] eqn:Hc; [ | discriminate].
  inversion H; subst. cbn [diffCache_].
  apply compareNodes_counted in Hc; [ | exact Hnamed].
  unfold calculateStats.
  destruct (countEntry_fold diff (List.length diff) 0 0 0 0 0)
    as [H1 [_ [_ [_ H5]]]].
  cbv zeta in *. rewrite H1, (H5 Hc). lia.
Qed.

Lemma stats_counters_add_up_witness :
  exists d' diff,
    generateDiff (newDiff (Some (tree_of ordering_base))
                          (Some (tree_of ordering_overlay)))
    = Some (d', diff)
    /\ totalChanges (calculateStats diff)
       = addedNodes (calculateStats diff) + removedNodes (calculateStats diff)
         + modifiedProperties (calculateStats diff)
         + addedProperties (calculateStats diff)
         + removedProperties (calculateStats diff).
Proof.
  apply (stats_counters_add_up ordering_base ordering_overlay). reflexivity.
Defined.

(** ** Searching the tree *)

Lemma node_induction (P : DeviceTreeNode -> Prop) :
  (forall name children properties,
      Forall P children -> P (Node name children properties)) ->
  forall n, P n.
Proof.
  intro H. fix IH 1. intros [name children properties]. apply H.
  induction children as [ | c rest IHrest]; constructor;
    [apply IH | exact IHrest].
Qed.

Lemma findChild_sound (component : string) (children : list DeviceTreeNode) :
  forall i child,
    findChild component children = Some (i, child) ->
    nth_error children i = Some child /\ getName child = component.
Proof.
  induction children as [ | c rest IH]; simpl; intros i child H; [discriminate | ].
  destruct (String.eqb_spec (getName c) component) as [E | _].
  - inversion H; subst. split; reflexivity.
  - destruct (findChild component rest) as [[j c'] | ]; [ | discriminate].
    inversion H; subst. simpl. now apply IH.
Qed.

Lemma walkComponents_sound (components : list string) :
  forall (current : DeviceTreeNode) (acc pos : position),
    walkComponents components current acc = Some pos ->
    exists suffix,
      pos = acc ++ suffix
      /\ pathComponents current suffix
         = Some (getName current
                 :: filter (fun c => negb (String.eqb c EmptyString)) components).
Proof.
  induction components as [ | component rest IH]; simpl; intros current acc pos H.
  - inversion H; subst. exists []. now rewrite app_nil_r.
  - destruct (String.eqb component EmptyString) eqn:E; simpl.
    + now apply IH.
    + destruct (findChild component (getChildren current)) as [[i child] | ] eqn:Hf;
        [ | discriminate].
      apply findChild_sound in Hf. destruct Hf as [Hn Hname].
      destruct (IH child (acc ++ [i]) pos H) as [suffix [Hpos Hpath]].
      exists (i :: suffix). split.
      * now rewrite Hpos, <- app_assoc.
      * simpl. rewrite Hn, Hpath, Hname. reflexivity.
Qed.

(** X10. The node that [findNodeByPath] returns exists, and the names met
    on the way from the starting node down to it are the non-empty
    components of the path, in order. *)
Theorem found_node_spells_the_path
        (this : DeviceTreeNode) (path : string) (pos : position) :
  findNodeByPath this path = Some pos ->
  pathComponents this pos
  = Some (getName this
          :: filter (fun c => negb (String.eqb c EmptyString))
                    (getlines "/"%char path)).
Proof.
  unfold findNodeByPath.
  destruct (String.eqb_spec path EmptyString) as [-> | Hne].
  { intro H. inversion H. reflexivity. }
  destruct (String.eqb_spec path "/") as [-> | Hne'].
  { intro H. inversion H. reflexivity. }
  cbn [orb]. destruct path as [ | c rest]; [congruence | ].
  intro H. apply walkComponents_sound in H.
  destruct H as [suffix [-> Hpath]]. cbn [app].
  rewrite Hpath. f_equal. f_equal.
  destruct (Ascii.eqb c "/"%char) eqn:Ec.
  - apply Ascii.eqb_eq in Ec. subst c. reflexivity.
  - reflexivity.
Qed.

Lemma found_node_spells_the_path_witness :
  pathComponents sample_tree [1; 0]
  = Some (getName sample_tree
          :: filter (fun c => negb (String.eqb c EmptyString))
                    (getlines "/"%char "/soc//uart@10000000/")).
Proof.
  apply (found_node_spells_the_path sample_tree "/soc//uart@10000000/" [1; 0]).
  reflexivity.
Defined.

Lemma findChild_appended (name : string) (children : list DeviceTreeNode)
      (child : DeviceTreeNode) :
  (forall c, In c children -> getName c <> name) ->
  getName child = name ->
  findChild name (children ++ [child]) = Some (List.length children, child).
Proof.
  intros Hnone Hname.
  induction children as [ | c rest IH]; simpl.
  - rewrite Hname, String.eqb_refl. reflexivity.
  - destruct (String.eqb_spec (getName c) name) as [E | _].
    + exfalso. apply (Hnone c); [now left | assumption].
    + rewrite IH; [reflexivity | ]. intros c' Hc'. apply Hnone. now right.
Qed.

(** X11. A child added under a name that is not empty, holds no separator
    and is borne by no child already there becomes the last child and is
    the node found under its name. *)
Theorem added_child_is_found (n child : DeviceTreeNode) :
  getName child <> EmptyString ->
  no_slash (getName child) = true ->
  (forall c, In c (getChildren n) -> getName c <> getName child) ->
  node_at (addChild n child) [List.length (getChildren n)] = Some child
  /\ findNodeByPath (addChild n child) (getName child)
     = Some [List.length (getChildren n)].
Proof.
  intros Hne Hns Hfresh. destruct n as [nm children props]. simpl. split.
  - rewrite nth_error_app2 by lia. now rewrite Nat.sub_diag.
  - unfold findNodeByPath.
    apply String.eqb_neq in Hne. rewrite Hne.
    pose proof (no_slash_not_root _ Hns) as Hnr.
    apply String.eqb_neq in Hnr. rewrite Hnr. cbn [orb].
    destruct (getName child) as [ | c rest] eqn:Hname; [discriminate | ].
    pose proof Hns as Hns'. simpl in Hns'. apply andb_prop in Hns'.
    destruct Hns' as [Hc _]. apply negb_true_iff in Hc. rewrite Hc.
    rewrite getlines_name; [ | assumption | discriminate].
    cbn [walkComponents getChildren]. rewrite Hne.
    rewrite (findChild_appended (String c rest) children child);
      [reflexivity | | assumption].
    intros c' Hc'. now apply Hfresh.
Qed.

Lemma added_child_is_found_witness :
  node_at (addChild sample_tree (Node "memory" [] []))
          [List.length (getChildren sample_tree)]
  = Some (Node "memory" [] [])
  /\ findNodeByPath (addChild sample_tree (Node "memory" [] []))
                    (getName (Node "memory" [] []))
     = Some [List.length (getChildren sample_tree)].
Proof.
  apply (added_child_is_found sample_tree (Node "memory" [] [])).
  - discriminate.
  - reflexivity.
  - simpl. intros c [<- | [<- | []]]; discriminate.
Defined.

Lemma collectChildren_In (search : DeviceTreeNode -> list position)
      (children : list DeviceTreeNode) :
  forall (i0 : nat) (pos : position),
    In pos (collectChildren search children i0)
    <-> exists j c rest,
        pos = (i0 + j) :: rest
        /\ nth_error children j = Some c /\ In rest (search c).
Proof.
  induction children as [ | child others IH]; intros i0 pos; simpl.
  - split; [intros [] | ]. intros [j [c [rest [_ [H _]]]]]. destruct j; discriminate.
  - rewrite in_app_iff, in_map_iff, IH. split.
    + intros [[rest [<- Hin]] | [j [c [rest [-> [Hn Hin]]]]]].
      * exists 0, child, rest. rewrite Nat.add_0_r. repeat split; assumption.
      * exists (S j), c, rest. rewrite Nat.add_succ_r. repeat split; assumption.
    + intros [[ | j] [c [rest [-> [Hn Hin]]]]]; simpl in Hn.
      * inversion Hn; subst. left. exists rest. rewrite Nat.add_0_r. tauto.
      * right. exists j, c, rest. rewrite Nat.add_succ_r. tauto.
Qed.

Lemma search_spec (test : string -> bool)
      (search : DeviceTreeNode -> list position)
      (name : string) (children : list DeviceTreeNode)
      (properties : list DeviceTreeProperty) :
  Forall (fun c => forall pos,
              In pos (search c)
              <-> exists m, node_at c pos = Some m /\ test (getName m) = true)
         children ->
  forall pos,
    In pos ((if test name then [[]] else []) ++ collectChildren search children 0)
    <-> exists m, node_at (Node name children properties) pos = Some m
                  /\ test (getName m) = true.
Proof.
  intros Hall pos. rewrite Forall_forall in Hall.
  rewrite in_app_iff, collectChildren_In. split.
  - intros [Hhere | [j [c [rest [-> [Hn Hin]]]]]].
    + destruct (test name) eqn:Ht; [ | destruct Hhere].
      destruct Hhere as [<- | []]. eexists. split; [reflexivity | exact Ht].
    + simpl. rewrite Hn. apply (Hall c); [ | assumption].
      eapply nth_error_In; eassumption.
  - intros [m [Hm Ht]]. destruct pos as [ | j rest]; simpl in Hm.
    + inversion Hm; subst. simpl in Ht. rewrite Ht. left. now left.
    + right. destruct (nth_error children j) as [c | ] eqn:Hn; [ | discriminate].
      exists j, c, rest. repeat split; [assumption | ].
      apply (Hall c); [eapply nth_error_In; eassumption | eauto].
Qed.

(** X12. The search by name returns exactly the nodes of the subtree that
    bear the name, and the search by pattern exactly those whose name
    contains the pattern. *)
Theorem searches_return_the_matching_nodes
        (n : DeviceTreeNode) (key : string) (pos : position) :
  (In pos (findNodesByName n key)
   <-> exists m, node_at n pos = Some m /\ getName m = key)
  /\ (In pos (findNodesByPattern n key)
      <-> exists m, node_at n pos = Some m /\ contains key (getName m) = true).
Proof.
  split.
  - revert pos. induction n as [name children properties IH] using node_induction.
    intro pos. cbn [findNodesByName].
    rewrite (search_spec (fun s => String.eqb s key) _ name children properties).
    + split; intros [m [Hm Ht]]; exists m; split; try assumption;
        now apply String.eqb_eq.
    + eapply Forall_impl; [ | exact IH]. intros c Hc p. cbv beta.
      rewrite (Hc p).
      split; intros [m [Hm Ht]]; exists m; split; try assumption;
        now apply String.eqb_eq.
  - revert pos. induction n as [name children properties IH] using node_induction.
    intro pos. cbn [findNodesByPattern].
    rewrite (search_spec (contains key) _ name children properties);
      [reflexivity | exact IH].
Qed.

(** X13. A tree is valid exactly when it has a root with a property named
    compatible, and then no error is recorded; adding that property to the
    root of any tree makes it valid. *)
Theorem validate_iff_root_is_compatible (t : DeviceTree) :
  (validate t = true
   <-> exists root, root_ t = Some root
                    /\ In "compatible" (map name_ (getProperties root)))
  /\ (validate t = true <-> validationErrors t = [])
  /\ forall root value source,
      validate (mkTree (Some (addProperty root (mkProperty "compatible" value)))
                       source) = true.
Proof.
  split; [ | split].
  - unfold validate, validationErrors, findProperty.
    destruct (root_ t) as [root | ].
    + destruct (findPropertyIn "compatible" (getProperties root)) eqn:Hf.
      * split; [ | reflexivity]. intros _. exists root. split; [reflexivity | ].
        destruct (in_dec string_dec "compatible" (map name_ (getProperties root)))
          as [Hin | Hnot]; [assumption | ].
        apply findPropertyIn_None in Hnot. congruence.
      * split; [discriminate | ]. intros [r [E Hin]]. inversion E; subst.
        apply findPropertyIn_None in Hf. contradiction.
    + split; [discriminate | ]. intros [r [E _]]. discriminate.
  - unfold validate. destruct (validationErrors t); split;
      try reflexivity; discriminate.
  - intros root value source. unfold validate, validationErrors. cbn [root_].
    destruct root as [nm children properties]. unfold findProperty.
    cbn [addProperty removeProperty getProperties name_].
    rewrite findPropertyIn_app, findPropertyIn_without. reflexivity.
Qed.

(** ** The header and the properties of a blob *)

Lemma load32_in_bounds (host : bool) (data : list byte) (off v : Z) :
  DTBParser.load32 host data off = Some v ->
  (0 <= off /\ off + 3 < Z.of_nat (List.length data))%Z.
Proof.
  unfold DTBParser.load32.
  destruct (DTBParser.byte_at data off) eqn:E0; [ | discriminate].
  destruct (DTBParser.byte_at data (off + 1)); [ | discriminate].
  destruct (DTBParser.byte_at data (off + 2)); [ | discriminate].
  destruct (DTBParser.byte_at data (off + 3)) eqn:E3; [ | discriminate].
  intros _. unfold DTBParser.byte_at in E0, E3.
  destruct (off <? 0)%Z eqn:Hlow; [discriminate | ].
  destruct (off + 3 <? 0)%Z; [discriminate | ].
  apply Z.ltb_ge in Hlow.
  destruct (nth_error data (Z.to_nat (off + 3))) eqn:En; [ | discriminate].
  assert (Z.to_nat (off + 3) < List.length data)%nat
    by (apply nth_error_Some; congruence).
  lia.
Qed.

Section BlobHeader.
Variable host : bool.

Local Open Scope Z_scope.

(** X14. A blob is accepted only with a sound header: at least 40 bytes, one
    of the two magic values, a total size equal to the length of the input,
    the three offsets below that length, the two blocks ending within it
    (their ends computed in 32 bits) and a version of 16 or more; the fields
    are read in the byte order that the magic value selects. *)
Theorem accepted_blob_has_sound_header
        (data : list byte) (root : option DeviceTreeNode) :
  DTBParser.parseDTBFile host data = Ok root ->
  let fileSize := Z.of_nat (List.length data) in
  exists magic isLittleEndian off_dt_struct off_dt_strings off_mem_rsvmap
         version size_dt_strings size_dt_struct,
    40 <= fileSize
    /\ DTBParser.load32 host data 0 = Some magic
    /\ (magic = 0xd00dfeed /\ isLittleEndian = false
        \/ magic = 0xedfe0dd0 /\ isLittleEndian = true)
    /\ DTBParser.read32 host data 4 isLittleEndian = Some fileSize
    /\ DTBParser.read32 host data 8 isLittleEndian = Some off_dt_struct
    /\ DTBParser.read32 host data 12 isLittleEndian = Some off_dt_strings
    /\ DTBParser.read32 host data 16 isLittleEndian = Some off_mem_rsvmap
    /\ DTBParser.read32 host data 20 isLittleEndian = Some version
    /\ DTBParser.read32 host data 32 isLittleEndian = Some size_dt_strings
    /\ DTBParser.read32 host data 36 isLittleEndian = Some size_dt_struct
    /\ off_dt_struct < fileSize /\ off_dt_strings < fileSize
    /\ off_mem_rsvmap < fileSize
    /\ wrap32 (off_dt_struct + size_dt_struct) <= fileSize
    /\ wrap32 (off_dt_strings + size_dt_strings) <= fileSize
    /\ 16 <= version.
Proof.
  unfold DTBParser.parseDTBFile. intro H. cbv zeta.
  destruct (Z.of_nat (List.length data) <? 40) eqn:Hsmall; [discriminate | ].
  apply Z.ltb_ge in Hsmall.
  apply bind_Ok in H. destruct H as [magic [Hmagic H]].
  apply bind_Ok in H. destruct H as [totalsize0 [Htotal H]].
  apply bind_Ok in H. destruct H as [struct0 [Hstruct H]].
  apply bind_Ok in H. destruct H as [strings0 [Hstrings H]].
  apply bind_Ok in H. destruct H as [rsvmap0 [Hrsvmap H]].
  apply bind_Ok in H. destruct H as [version0 [Hversion H]].
  apply bind_Ok in H. destruct H as [sizestrings0 [Hsizestrings H]].
  apply bind_Ok in H. destruct H as [sizestruct0 [Hsizestruct H]].
  apply bind_Ok in H. destruct H as [isLittleEndian [Hle H]].
  repeat match type of H with
         | (if ?c then Throw _ else _) = _ =>
             let Hc := fresh "Hc" in destruct c eqn:Hc; [discriminate | ]
         end.
  clear H.
  repeat match goal with
         | Hd : defined ?o = Ok _ |- _ =>
             destruct o eqn:?; [ | discriminate]; inversion Hd; subst; clear Hd
         end.
  apply negb_false_iff, Z.eqb_eq in Hc.
  apply orb_false_iff in Hc0. destruct Hc0 as [Hc0 Hrsv].
  apply orb_false_iff in Hc0. destruct Hc0 as [Hst Hstr].
  apply Z.leb_gt in Hst, Hstr, Hrsv. apply Z.ltb_ge in Hc1, Hc2, Hc3.
  exists magic, isLittleEndian.
  do 6 eexists.
  split; [exact Hsmall | ]. split; [reflexivity | ].
  split.
  { destruct (magic =? 0xd00dfeed) eqn:E1.
    - apply Z.eqb_eq in E1. inversion Hle; subst. now left.
    - destruct (magic =? 0xedfe0dd0) eqn:E2; [ | discriminate].
      apply Z.eqb_eq in E2. inversion Hle; subst. now right. }
  unfold DTBParser.read32.
  repeat match goal with
         | Hl : DTBParser.load32 host data _ = Some _ |- _ =>
             rewrite Hl; clear Hl
         end.
  cbn [option_map]. split; [now rewrite Hc | ].
  repeat (split; [reflexivity | ]).
  repeat (split; [assumption | ]). assumption.
Qed.

(** X15. A property read from a blob of less than 2 GiB never has an empty
    name, and the offset handed back lies past the declared value, within
    the three bytes of padding after it, a multiple of four bytes from where
    the property starts. *)
Theorem property_is_named_and_skipped_to_the_boundary
        (data : list byte) (offset stringsOffset : Z) (isLittleEndian : bool)
        (len : Z) (prop : DeviceTreeProperty) (next : Z) :
  Z.of_nat (List.length data) < 2 ^ 31 ->
  DTBParser.read32 host data (offset + 4) isLittleEndian = Some len ->
  DTBParser.parseDTBProperty host data offset stringsOffset isLittleEndian
  = Ok (prop, next) ->
  name_ prop <> EmptyString
  /\ offset + 12 + len <= next < offset + 12 + len + 4
  /\ (next - offset) mod 4 = 0.
Proof.
  intros Hsize Hlen. unfold DTBParser.parseDTBProperty. rewrite Hlen.
  cbn [defined bind].
  assert (0 <= offset + 4 < 2 ^ 31 - 3) as Hoff.
  { unfold DTBParser.read32 in Hlen.
    destruct (DTBParser.load32 host data (offset + 4)) as [v | ] eqn:Hload;
      [ | discriminate].
    apply load32_in_bounds in Hload. lia. }
  intro H.
  apply bind_Ok in H. destruct H as [nameoff [_ H]].
  destruct (0x1000000 <=? nameoff); [discriminate | ].
  apply bind_Ok in H. destruct H as [propName [_ H]].
  destruct propName as [ | c rest]; [discriminate | ]. cbn [String.length Nat.eqb] in H.
  apply bind_Ok in H. destruct H as [value [Hvalue H]].
  inversion H; subst. split; [discriminate | ].
  assert (0 <= len < 2 ^ 31) as Hl.
  { destruct (len =? 0) eqn:Ez; [apply Z.eqb_eq in Ez; lia | ].
    apply bind_Ok in Hvalue. destruct Hvalue as [bytes [Hb _]].
    unfold DTBParser.read_bytes in Hb.
    destruct (offset + 12 <? 0) eqn:E1; [discriminate | ].
    destruct (len <? 0) eqn:E2; [discriminate | ].
    destruct (Z.of_nat (List.length data) <? offset + 12 + len) eqn:E3;
      [discriminate | ].
    apply Z.ltb_ge in E1, E2, E3. lia. }
  assert (wrap32 (len + 3) = len + 3) as E1
      by (unfold wrap32; apply Z.mod_small; lia).
  rewrite E1.
  assert (len <= (len + 3) / 4 * 4 <= len + 3) as Hpad.
  { pose proof (Z.div_mod (len + 3) 4) as Hd.
    pose proof (Z.mod_pos_bound (len + 3) 4) as Hm. lia. }
  assert (wrap32 ((len + 3) / 4 * 4) = (len + 3) / 4 * 4) as E2
      by (unfold wrap32; apply Z.mod_small; lia).
  rewrite E2.
  assert (wrap64 (offset + 12 + (len + 3) / 4 * 4)
          = offset + 12 + (len + 3) / 4 * 4) as E3
      by (unfold wrap64; apply Z.mod_small; lia).
  rewrite E3. split; [lia | ].
  replace (offset + 12 + (len + 3) / 4 * 4 - offset)
    with ((3 + (len + 3) / 4) * 4) by lia.
  apply Z.mod_mul. lia.
Qed.
End BlobHeader.

Lemma property_is_named_and_skipped_to_the_boundary_witness :
  name_ (mkProperty "x" (VString "a")) <> EmptyString
  /\ (64 + 12 + 2 <= 80 < 64 + 12 + 2 + 4)%Z
  /\ ((80 - 64) mod 4 = 0)%Z.
Proof.
  apply (property_is_named_and_skipped_to_the_boundary
           true sample_blob 64 100 true 2 (mkProperty "x" (VString "a")) 80);
    reflexivity.
Defined.

Lemma accepted_blob_has_sound_header_witness :
  let fileSize := Z.of_nat (List.length sample_blob) in
  exists magic isLittleEndian off_dt_struct off_dt_strings off_mem_rsvmap
         version size_dt_strings size_dt_struct,
    (40 <= fileSize)%Z
    /\ DTBParser.load32 true sample_blob 0 = Some magic
    /\ (magic = 0xd00dfeed%Z /\ isLittleEndian = false
        \/ magic = 0xedfe0dd0%Z /\ isLittleEndian = true)
    /\ DTBParser.read32 true sample_blob 4 isLittleEndian = Some fileSize
    /\ DTBParser.read32 true sample_blob 8 isLittleEndian = Some off_dt_struct
    /\ DTBParser.read32 true sample_blob 12 isLittleEndian = Some off_dt_strings
    /\ DTBParser.read32 true sample_blob 16 isLittleEndian = Some off_mem_rsvmap
    /\ DTBParser.read32 true sample_blob 20 isLittleEndian = Some version
    /\ DTBParser.read32 true sample_blob 32 isLittleEndian = Some size_dt_strings
    /\ DTBParser.read32 true sample_blob 36 isLittleEndian = Some size_dt_struct
    /\ (off_dt_struct < fileSize)%Z /\ (off_dt_strings < fileSize)%Z
    /\ (off_mem_rsvmap < fileSize)%Z
    /\ (wrap32 (off_dt_struct + size_dt_struct) <= fileSize)%Z
    /\ (wrap32 (off_dt_strings + size_dt_strings) <= fileSize)%Z
    /\ (16 <= version)%Z.
Proof.
  apply (accepted_blob_has_sound_header true sample_blob (Some (Node "/" [] []))).
  reflexivity.
Defined.

(** ** The byte order of the host *)

Section HostOrder.
Local Open Scope Z_scope.

Lemma lor_shiftl_small (hi lo n : Z) :
  0 <= n -> 0 <= lo < 2 ^ n ->
  Z.lor (Z.shiftl hi n) lo = hi * 2 ^ n + lo.
Proof.
  intros Hn Hlo. rewrite Z.shiftl_mul_pow2 by assumption.
  assert (Z.land (hi * 2 ^ n) lo = 0) as Hland.
  { apply Z.bits_inj'. intros i Hi. rewrite Z.land_spec, Z.bits_0.
    destruct (Z.lt_ge_cases i n) as [Hlt | Hge].
    - rewrite Z.mul_pow2_bits_low by assumption. reflexivity.
    - destruct (Z.eq_dec lo 0) as [-> | Hnz].
      + rewrite Z.bits_0. apply andb_false_r.
      + rewrite (Z.bits_above_log2 lo i); [apply andb_false_r | lia | ].
        apply Z.lt_le_trans with n; [ | assumption].
        apply Z.log2_lt_pow2; lia. }
  rewrite <- Z.lxor_lor by exact Hland.
  symmetry. now apply Z.add_nocarry_lxor.
Qed.

Lemma bswap32_bytes (b0 b1 b2 b3 : Z) :
  0 <= b0 < 256 -> 0 <= b1 < 256 -> 0 <= b2 < 256 -> 0 <= b3 < 256 ->
  DTBParser.bswap32 (b0 + 2 ^ 8 * b1 + 2 ^ 16 * b2 + 2 ^ 24 * b3)
  = b3 + 2 ^ 8 * b2 + 2 ^ 16 * b1 + 2 ^ 24 * b0.
Proof.
  intros H0 H1 H2 H3. unfold DTBParser.bswap32.
  set (x := b0 + 2 ^ 8 * b1 + 2 ^ 16 * b2 + 2 ^ 24 * b3).
  change 255 with (Z.ones 8). rewrite !Z.land_ones by lia.
  rewrite !Z.shiftr_div_pow2 by lia.
  assert (x mod 2 ^ 8 = b0) as E0.
  { symmetry. apply (Z.mod_unique_pos x (2 ^ 8) (b1 + 2 ^ 8 * b2 + 2 ^ 16 * b3));
      unfold x; lia. }
  assert (x / 2 ^ 8 = b1 + 2 ^ 8 * b2 + 2 ^ 16 * b3) as D1.
  { symmetry. apply (Z.div_unique_pos x (2 ^ 8) _ b0); unfold x; lia. }
  assert (x / 2 ^ 16 = b2 + 2 ^ 8 * b3) as D2.
  { symmetry. apply (Z.div_unique_pos x (2 ^ 16) _ (b0 + 2 ^ 8 * b1));
      unfold x; lia. }
  assert (x / 2 ^ 24 = b3) as D3.
  { symmetry.
    apply (Z.div_unique_pos x (2 ^ 24) _ (b0 + 2 ^ 8 * b1 + 2 ^ 16 * b2));
      unfold x; lia. }
  rewrite E0, D1, D2, D3.
  assert ((b1 + 2 ^ 8 * b2 + 2 ^ 16 * b3) mod 2 ^ 8 = b1) as E1.
  { symmetry. apply (Z.mod_unique_pos _ (2 ^ 8) (b2 + 2 ^ 8 * b3)); lia. }
  assert ((b2 + 2 ^ 8 * b3) mod 2 ^ 8 = b2) as E2.
  { symmetry. apply (Z.mod_unique_pos _ (2 ^ 8) b3); lia. }
  assert (b3 mod 2 ^ 8 = b3) as E3 by (apply Z.mod_small; lia).
  rewrite E1, E2, E3.
  rewrite (lor_shiftl_small b2 b3 8) by lia.
  rewrite (lor_shiftl_small b1 _ 16) by lia.
  rewrite (lor_shiftl_small b0 _ 24) by lia.
  lia.
Qed.

Lemma byte_at_range (data : list byte) (off v : Z) :
  DTBParser.byte_at data off = Some v -> 0 <= v < 256.
Proof.
  unfold DTBParser.byte_at. destruct (off <? 0); [discriminate | ].
  destruct (nth_error data (Z.to_nat off)) as [b | ]; [ | discriminate].
  intro E. inversion E. unfold byte_to_Z.
  pose proof (Byte.to_N_bounded b). lia.
Qed.

(** A word loaded on one host is the byte-reversed word loaded on the
    other. *)
Lemma load32_swap (host : bool) (data : list byte) (off : Z) :
  DTBParser.load32 (negb host) data off
  = option_map DTBParser.bswap32 (DTBParser.load32 host data off).
Proof.
  unfold DTBParser.load32.
  destruct (DTBParser.byte_at data off) as [b0 | ] eqn:E0; [ | reflexivity].
  destruct (DTBParser.byte_at data (off + 1)) as [b1 | ] eqn:E1; [ | reflexivity].
  destruct (DTBParser.byte_at data (off + 2)) as [b2 | ] eqn:E2; [ | reflexivity].
  destruct (DTBParser.byte_at data (off + 3)) as [b3 | ] eqn:E3; [ | reflexivity].
  apply byte_at_range in E0, E1, E2, E3.
  destruct host; cbn [negb option_map]; f_equal; symmetry;
    now apply bswap32_bytes.
Qed.

Lemma read32_swap (host : bool) (data : list byte) (off : Z) (le : bool) :
  DTBParser.read32 (negb host) data off (negb le)
  = DTBParser.read32 host data off le.
Proof.
  unfold DTBParser.read32. destruct le; cbn [negb].
  - rewrite load32_swap.
    destruct (DTBParser.load32 host data off); reflexivity.
  - pose proof (load32_swap (negb host) data off) as H.
    rewrite negb_involutive in H. rewrite H.
    destruct (DTBParser.load32 (negb host) data off); reflexivity.
Qed.

Lemma parseDTBProperty_swap (host : bool) (data : list byte)
      (offset stringsOffset : Z) (le : bool) :
  DTBParser.parseDTBProperty (negb host) data offset stringsOffset (negb le)
  = DTBParser.parseDTBProperty host data offset stringsOffset le.
Proof.
  unfold DTBParser.parseDTBProperty. now rewrite !read32_swap.
Qed.

Lemma parseDTBNode_swap (host : bool) (data : list byte)
      (stringsOffset : Z) (le : bool) (fuel : nat) :
  (forall offset nextOffset,
      DTBParser.parseDTBNode (negb host) fuel data offset nextOffset
                             stringsOffset (negb le)
      = DTBParser.parseDTBNode host fuel data offset nextOffset stringsOffset le)
  /\ (forall node currentOffset nextOffset,
         DTBParser.parseDTBNodeLoop (negb host) fuel data node currentOffset
                                    nextOffset stringsOffset (negb le)
         = DTBParser.parseDTBNodeLoop host fuel data node currentOffset
                                      nextOffset stringsOffset le).
Proof.
  induction fuel as [ | fuel [IHnode IHloop]]; [split; reflexivity | ].
  split.
  - intros offset nextOffset. cbn [DTBParser.parseDTBNode].
    rewrite read32_swap.
    destruct (DTBParser.read32 host data offset le) as [token | ];
      [ | reflexivity].
    cbn [defined bind]. destruct (token =? 1); [ | reflexivity].
    destruct (DTBParser.cstring data (offset + 4)); [ | reflexivity].
    cbn [defined bind]. now rewrite IHloop.
  - intros node currentOffset nextOffset. cbn [DTBParser.parseDTBNodeLoop].
    destruct (currentOffset <? nextOffset); [ | reflexivity].
    rewrite read32_swap.
    destruct (DTBParser.read32 host data currentOffset le) as [token | ];
      [ | reflexivity].
    cbn [defined bind].
    destruct (token =? 2).
    { rewrite parseDTBProperty_swap.
      destruct (DTBParser.parseDTBProperty host data currentOffset
                                           stringsOffset le)
        as [[prop next] | | | ]; try reflexivity.
      cbn [bind]. apply IHloop. }
    destruct (token =? 1).
    { rewrite IHnode.
      destruct (DTBParser.parseDTBNode host fuel data currentOffset
                                       currentOffset stringsOffset le)
        as [[child next] | | | ]; try reflexivity.
      cbn [bind]. apply IHloop. }
    destruct (token =? 3); [reflexivity | ].
    destruct (token =? 9); [reflexivity | ].
    apply IHloop.
Qed.

Lemma load32_twice (host : bool) (data : list byte) (off v : Z) :
  DTBParser.load32 host data off = Some v ->
  DTBParser.bswap32 (DTBParser.bswap32 v) = v.
Proof.
  intro H. pose proof (load32_swap host data off) as H1.
  pose proof (load32_swap (negb host) data off) as H2.
  rewrite negb_involutive in H2. rewrite H1, H in H2. simpl in H2.
  congruence.
Qed.

(** The decoding of a blob is the same on a little-endian and on a
    big-endian host. *)
Lemma parseDTBFile_host_independent (data : list byte) :
  DTBParser.parseDTBFile false data = DTBParser.parseDTBFile true data.
Proof.
  unfold DTBParser.parseDTBFile.
  destruct (Z.of_nat (List.length data) <? 40); [reflexivity | ].
  rewrite !(load32_swap true data
            : forall off, DTBParser.load32 false data off = _).
  destruct (DTBParser.load32 true data 0) as [magic | ] eqn:L0;
    cbn [option_map defined bind]; [ | reflexivity].
  destruct (DTBParser.load32 true data 4) as [totalsize | ] eqn:L1;
    cbn [option_map defined bind]; [ | reflexivity].
  destruct (DTBParser.load32 true data 8) as [off_struct | ] eqn:L2;
    cbn [option_map defined bind]; [ | reflexivity].
  destruct (DTBParser.load32 true data 12) as [off_strings | ] eqn:L3;
    cbn [option_map defined bind]; [ | reflexivity].
  destruct (DTBParser.load32 true data 16) as [off_rsvmap | ] eqn:L4;
    cbn [option_map defined bind]; [ | reflexivity].
  destruct (DTBParser.load32 true data 20) as [version | ] eqn:L5;
    cbn [option_map defined bind]; [ | reflexivity].
  destruct (DTBParser.load32 true data 32) as [size_strings | ] eqn:L6;
    cbn [option_map defined bind]; [ | reflexivity].
  destruct (DTBParser.load32 true data 36) as [size_struct | ] eqn:L7;
    cbn [option_map defined bind]; [ | reflexivity].
  apply load32_twice in L1, L2, L3, L4, L5, L6, L7.
  pose proof (load32_twice _ _ _ _ L0) as Hmagic.
  pose proof (parseDTBNode_swap true data) as Hswap. cbn [negb] in Hswap.
  destruct (magic =? 0xd00dfeed) eqn:M1.
  - apply Z.eqb_eq in M1. subst magic.
    change (DTBParser.bswap32 0xd00dfeed =? 0xd00dfeed) with false.
    change (DTBParser.bswap32 0xd00dfeed =? 0xedfe0dd0) with true.
    cbn [bind]. cbv iota. rewrite L1, L2, L3, L4, L5, L6, L7.
    rewrite (proj1 (Hswap off_strings false _)). reflexivity.
  - destruct (magic =? 0xedfe0dd0) eqn:M2.
    + apply Z.eqb_eq in M2. subst magic.
      change (DTBParser.bswap32 0xedfe0dd0 =? 0xd00dfeed) with true.
      cbn [bind]. cbv iota.
      rewrite <- (proj1 (Hswap (DTBParser.bswap32 off_strings) true _)).
      reflexivity.
    + destruct (DTBParser.bswap32 magic =? 0xd00dfeed) eqn:N1.
      { apply Z.eqb_eq in N1. rewrite N1 in Hmagic. vm_compute in Hmagic.
        subst magic. discriminate. }
      destruct (DTBParser.bswap32 magic =? 0xedfe0dd0) eqn:N2.
      { apply Z.eqb_eq in N2. rewrite N2 in Hmagic. vm_compute in Hmagic.
        subst magic. discriminate. }
      reflexivity.
Qed.

(** X16. Whether a blob is accepted, and the root it yields, do not depend
    on the byte order of the machine that decodes it: a blob decoded on a
    little-endian host is decoded to the same root on a big-endian host,
    and one rejected on either is rejected on the other. *)
Theorem decoding_does_not_depend_on_the_host (data : list byte) :
  (forall root, DTBParser.parseDTBFile true data = Ok root
                <-> DTBParser.parseDTBFile false data = Ok root)
  /\ ((exists what, DTBParser.parseDTBFile true data = Throw what)
      <-> (exists what, DTBParser.parseDTBFile false data = Throw what)).
Proof.
  rewrite parseDTBFile_host_independent. split; [intro root | ]; reflexivity.
Qed.
End HostOrder.

(** ** What the text decoder builds *)

Lemma parseTokens_range (modulus : Z) (what : string) (tokens : list string) :
  (0 < modulus)%Z ->
  forall vs, DTSParser.parseTokens modulus what tokens = Ok vs ->
             Forall (fun v => (0 <= v < modulus)%Z) vs.
Proof.
  intro Hm. induction tokens as [ | token rest IH]; simpl; intros vs H.
  - inversion H. constructor.
  - destruct (String.eqb token EmptyString); [now apply IH | ].
    destruct (stoul16 _) as [v | ]; [ | discriminate].
    destruct (DTSParser.parseTokens modulus what rest) as [vs' | | | ];
      try discriminate.
    simpl in H. inversion H; subst. constructor; [ | now apply IH].
    now apply Z.mod_pos_bound.
Qed.

Lemma parseDTSProperty_ok (stream stream' : istream) (line : string)
      (prop : DeviceTreeProperty) :
  DTSParser.parseDTSProperty stream line = (Ok prop, stream') ->
  String.eqb (name_ prop) EmptyString = false
  /\ value_in_range (value_ prop) = true.
Proof.
  unfold DTSParser.parseDTSProperty.
  destruct (find "=" line) as [equalPos | ]; [ | discriminate].
  destruct (String.eqb _ EmptyString) eqn:Hname; [discriminate | ].
  destruct (DTSParser.parseDTSValue stream line) as [value rest].
  cbv zeta. intro H. inversion H as [[Hv Hs]]. clear H Hs.
  match type of Hv with
  | bind ?e _ = _ => destruct e as [v | | | ] eqn:He; try discriminate
  end.
  simpl in Hv. inversion Hv; subst. simpl. split; [exact Hname | ].
  repeat match type of He with
         | (if ?c then _ else _) = _ => destruct c
         end;
    try (inversion He; subst; reflexivity).
  - match type of He with
    | bind ?e _ = _ => destruct e as [cells | | | ] eqn:Hc; try discriminate
    end.
    simpl in He. inversion He; subst. simpl.
    apply parseTokens_range in Hc; [ | reflexivity].
    apply forallb_forall. intros c Hin. rewrite Forall_forall in Hc.
    specialize (Hc c Hin). apply andb_true_intro.
    split; [apply Z.leb_le | apply Z.ltb_lt]; lia.
  - match type of He with
    | bind ?e _ = _ => destruct e as [binary | | | ] eqn:Hc; try discriminate
    end.
    simpl in He. inversion He; subst. reflexivity.
Qed.

Lemma names_distinct_after_add (properties : list DeviceTreeProperty)
      (property : DeviceTreeProperty) :
  distinct_names (map name_ properties) = true ->
  distinct_names
    (map name_
         (filter (fun prop => negb (String.eqb (name_ prop) (name_ property)))
                 properties ++ [property])) = true.
Proof.
  intro Hd. apply distinct_names_NoDup in Hd.
  apply distinct_names_NoDup. rewrite map_app, names_without. simpl.
  apply NoDup_app; [now apply NoDup_filter | repeat constructor; intros [] | ].
  intros k Hk [<- | []]. apply filter_In in Hk. destruct Hk as [_ Hk].
  now rewrite String.eqb_refl in Hk.
Qed.

Lemma forallb_filter_app {A : Type} (test keep : A -> bool) (l : list A) (x : A) :
  forallb test l = true -> test x = true ->
  forallb test (filter keep l ++ [x]) = true.
Proof.
  intros Hl Hx. rewrite forallb_app. simpl. rewrite Hx, andb_true_r.
  apply forallb_forall. intros y Hy. apply filter_In in Hy.
  rewrite forallb_forall in Hl. now apply Hl.
Qed.

Lemma addProperty_ok (n : DeviceTreeNode) (prop : DeviceTreeProperty) :
  all_nodes decoded_node_ok n = true ->
  String.eqb (name_ prop) EmptyString = false ->
  value_in_range (value_ prop) = true ->
  all_nodes decoded_node_ok (addProperty n prop) = true.
Proof.
  destruct n as [nm children properties]. simpl.
  intros H Hname Hrange. apply andb_prop in H. destruct H as [Hok Hchildren].
  rewrite Hchildren, andb_true_r.
  unfold decoded_node_ok, properties_well_named, properties_named,
    properties_in_range in *. simpl in *.
  apply andb_prop in Hok. destruct Hok as [Hwn Hr].
  apply andb_prop in Hwn. destruct Hwn as [Hn Hd].
  rewrite (forallb_filter_app _ _ _ _ Hn), (names_distinct_after_add _ _ Hd),
    (forallb_filter_app _ _ _ _ Hr); try reflexivity; try assumption.
  now rewrite Hname.
Qed.

Lemma addChild_ok (parent child : DeviceTreeNode) :
  all_nodes decoded_node_ok parent = true ->
  all_nodes decoded_node_ok child = true ->
  all_nodes decoded_node_ok (addChild parent child) = true.
Proof.
  destruct parent as [nm children properties]. simpl.
  intros H Hc. apply andb_prop in H. destruct H as [Hok Hchildren].
  change (decoded_node_ok (Node nm (children ++ [child]) properties))
    with (decoded_node_ok (Node nm children properties)).
  rewrite Hok, forallb_app, Hchildren. simpl. now rewrite Hc.
Qed.

Lemma closeAll_ok (below : list DeviceTreeNode) :
  forall top,
    all_nodes decoded_node_ok top = true ->
    Forall (fun n => all_nodes decoded_node_ok n = true) below ->
    all_nodes decoded_node_ok (DTSParser.closeAll top below) = true.
Proof.
  induction below as [ | parent rest IH]; simpl; intros top Ht Hb; [assumption | ].
  inversion Hb; subst. apply IH; [now apply addChild_ok | assumption].
Qed.

Lemma last_cons_default {A : Type} (x d : A) (l : list A) :
  last (x :: l) d = last l x.
Proof.
  revert x d. induction l as [ | y l IH]; intros x d; [reflexivity | ].
  change (last (x :: y :: l) d) with (last (y :: l) d).
  now rewrite (IH y d), (IH y x).
Qed.

Lemma last_name (below : list DeviceTreeNode) (t1 t2 : DeviceTreeNode) :
  getName t1 = getName t2 -> getName (last below t1) = getName (last below t2).
Proof.
  intro H. destruct below as [ | x l]; [exact H | ].
  now rewrite !last_cons_default.
Qed.

Lemma addChild_name (parent child : DeviceTreeNode) :
  getName (addChild parent child) = getName parent.
Proof. destruct parent; reflexivity. Qed.

Lemma addProperty_name (n : DeviceTreeNode) (prop : DeviceTreeProperty) :
  getName (addProperty n prop) = getName n.
Proof. destruct n; reflexivity. Qed.

Lemma closeAll_name (below : list DeviceTreeNode) :
  forall top, getName (DTSParser.closeAll top below) = getName (last below top).
Proof.
  induction below as [ | parent rest IH]; intro top; [reflexivity | ].
  cbn [DTSParser.closeAll]. rewrite IH, last_cons_default.
  apply last_name, addChild_name.
Qed.

(** The node loop keeps what holds of the open nodes, and hands back the
    outermost of them. *)
Lemma parseDTSBody_ok (fuel : nat) :
  forall (stream : istream) (top : DeviceTreeNode) (below : list DeviceTreeNode)
         (node : DeviceTreeNode),
    all_nodes decoded_node_ok top = true ->
    Forall (fun n => all_nodes decoded_node_ok n = true) below ->
    DTSParser.parseDTSBody fuel stream top below = Ok node ->
    all_nodes decoded_node_ok node = true
    /\ getName node = getName (last below top).
Proof.
  induction fuel as [ | fuel IH]; intros stream top below node Ht Hb H;
    [discriminate | ].
  destruct stream as [ | line rest]; cbn [DTSParser.parseDTSBody] in H.
  { inversion H; subst. split; [now apply closeAll_ok | apply closeAll_name]. }
  destruct (contains "};" (ltrim line)).
  { destruct below as [ | parent others].
    - inversion H; subst. split; [assumption | reflexivity].
    - inversion Hb; subst.
      destruct (IH _ _ _ _ (addChild_ok _ _ H2 Ht) H3 H) as [Hok Hname].
      split; [exact Hok | ]. rewrite Hname, last_cons_default.
      apply last_name, addChild_name. }
  destruct (DTSParser.skippable (ltrim line)); [now apply (IH rest) | ].
  destruct (contains "=" line).
  { destruct (DTSParser.parseDTSProperty rest line)
      as [[prop | what | | ] stream''] eqn:Hp; try now apply (IH stream'').
    apply parseDTSProperty_ok in Hp. destruct Hp as [Hn Hr].
    destruct (IH _ _ _ _ (addProperty_ok _ _ Ht Hn Hr) Hb H) as [Hok Hname].
    split; [exact Hok | ]. rewrite Hname. apply last_name, addProperty_name. }
  destruct (find "{" line) as [bracePos | ]; [ | now apply (IH rest)].
  assert (all_nodes decoded_node_ok
                    (newNode (DTSParser.nameBeforeBrace line bracePos)) = true)
    as Hnew by reflexivity.
  destruct (IH _ _ _ _ Hnew (Forall_cons _ Ht Hb) H) as [Hok Hname].
  split; [exact Hok | ]. now rewrite Hname, last_cons_default.
Qed.

(** X17. In the tree decoded from a text, every node has property names
    that are not empty and pairwise distinct, every 32-bit cell lies below
    2^32, and the root bears a name that is not empty. *)
Theorem decoded_text_tree_is_well_formed
        (content : string) (root : DeviceTreeNode) :
  DTSParser.parseDTSFile content = Ok (Some root) ->
  all_nodes properties_well_named root = true
  /\ all_nodes properties_in_range root = true
  /\ getName root <> EmptyString.
Proof.
  unfold DTSParser.parseDTSFile.
  assert (forall n, all_nodes decoded_node_ok n = true ->
                    all_nodes properties_well_named n = true
                    /\ all_nodes properties_in_range n = true) as Hsplit.
  { induction n as [nm children props IH] using node_induction.
    cbn [all_nodes]. intro H. apply andb_prop in H. destruct H as [Hok Hc].
    unfold decoded_node_ok in Hok. apply andb_prop in Hok.
    destruct Hok as [-> ->]. cbn [andb].
    rewrite forallb_forall in Hc. rewrite Forall_forall in IH.
    split; apply forallb_forall; intros c Hin;
      now apply (IH c Hin (Hc c Hin)). }
  induction (open_stream content) as [ | line rest IH];
    cbn [DTSParser.parseDTSNode]; [discriminate | ].
  destruct (DTSParser.skippable (ltrim line)); [exact IH | ].
  destruct (contains "/dts-v1/;" line); [exact IH | ].
  destruct (find "{" line) as [bracePos | ]; [ | exact IH].
  intro H. apply bind_Ok in H. destruct H as [node [Hbody H]].
  inversion H; subst.
  apply parseDTSBody_ok in Hbody; [ | reflexivity | constructor].
  destruct Hbody as [Hok Hname].
  destruct (Hsplit _ Hok) as [H1 H2]. split; [exact H1 | ].
  split; [exact H2 | ].
  rewrite Hname. cbn [last newNode getName].
  destruct (String.eqb_spec (DTSParser.nameBeforeBrace line bracePos) EmptyString)
    as [E | Hne]; cbn [orb]; [discriminate | ].
  destruct (String.eqb (DTSParser.nameBeforeBrace line bracePos) "/");
    [discriminate | exact Hne].
Qed.

Lemma decoded_text_tree_is_well_formed_witness :
  all_nodes properties_well_named
            (Node "/" [] [mkProperty "a" (VString "1");
                          mkProperty "c" (VCells [16%Z; 2%Z])]) = true
  /\ all_nodes properties_in_range
               (Node "/" [] [mkProperty "a" (VString "1");
                             mkProperty "c" (VCells [16%Z; 2%Z])]) = true
  /\ getName (Node "/" [] [mkProperty "a" (VString "1");
                           mkProperty "c" (VCells [16%Z; 2%Z])]) <> EmptyString.
Proof.
  apply (decoded_text_tree_is_well_formed missing_equals_text).
  vm_compute. reflexivity.
Defined.

(** X18. The text decoder returns on every text and lets no exception out;
    it returns no tree exactly when every line is one the outer loop passes
    over: empty or a comment, the version line, or a line with no brace. *)
Theorem text_decoder_always_returns (content : string) :
  exists r,
    DTSParser.parseDTSFile content = Ok r
    /\ (r = None <-> Forall opens_no_node (open_stream content)).
Proof.
  unfold DTSParser.parseDTSFile.
  induction (open_stream content) as [ | line rest IH];
    cbn [DTSParser.parseDTSNode].
  - exists None. split; [reflexivity | ]. split; [constructor | reflexivity].
  - destruct IH as [r [Hr Hiff]].
    destruct (DTSParser.skippable (ltrim line)) eqn:Hs.
    { exists r. split; [exact Hr | ]. rewrite Hiff. split.
      - intro H. constructor; [now left | exact H].
      - intro H. now inversion H. }
    destruct (contains "/dts-v1/;" line) eqn:Hv.
    { exists r. split; [exact Hr | ]. rewrite Hiff. split.
      - intro H. constructor; [right; now left | exact H].
      - intro H. now inversion H. }
    destruct (find "{" line) as [bracePos | ] eqn:Hb.
    + match goal with
      | |- context [DTSParser.parseDTSBody ?f ?s ?t ?b] =>
          destruct (parseDTSBody_total f s t b) as [node ->]; [lia | ]
      end.
      cbn [bind]. eexists. split; [reflexivity | ].
      split; [discriminate | ]. intro H. inversion H as [ | ? ? Hline _]; subst.
      destruct Hline as [E | [E | E]]; congruence.
    + exists r. split; [exact Hr | ]. rewrite Hiff. split.
      * intro H. constructor; [right; now right | exact H].
      * intro H. now inversion H.
Qed.

(** ** The shape of paths *)

Lemma joinComponents_from (names : list string) (acc : string) :
  Forall (fun name => name <> "/") names ->
  fold_left
    (fun path component =>
       if negb (String.eqb component "/") then path +++ "/" +++ component
       else "/")
    names acc
  = acc +++ slashJoin names.
Proof.
  intro H. revert acc.
  induction H as [ | name rest Hne Hrest IH]; intro acc; simpl.
  - now rewrite append_empty_r.
  - apply String.eqb_neq in Hne. rewrite Hne. simpl. rewrite IH.
    change (String "/"%char name) with ("/" +++ name).
    now rewrite !append_assoc.
Qed.

Lemma joinComponents_app (before after : list string) :
  joinComponents (before ++ "/" :: after) = joinComponents ("/" :: after).
Proof.
  unfold joinComponents. rewrite fold_left_app. reflexivity.
Qed.

(** X19. The full path of a node shows only the names after the last node
    named "/" on the way down from the root: it is "/" followed by each of
    those names behind a separator, so that a child a of a root named "/"
    has the path "//a", and a node named "/" has the path "/" wherever it
    stands. *)
Theorem full_path_restarts_at_the_last_root_name
        (root : DeviceTreeNode) (pos : position) (before after : list string) :
  pathComponents root pos = Some (before ++ "/" :: after) ->
  Forall (fun name => name <> "/") after ->
  getFullPath root pos = Some ("/" +++ slashJoin after).
Proof.
  intros Hp Hafter. unfold getFullPath. rewrite Hp. cbn [option_map].
  rewrite joinComponents_app. unfold joinComponents. cbn [fold_left].
  change (negb (String.eqb "/" "/")) with false. cbv iota.
  now rewrite joinComponents_from.
Qed.

Lemma full_path_restarts_at_the_last_root_name_witness :
  getFullPath (Node "/" [Node "soc" [Node "/" [Node "uart" [] []] []] []] [])
              [0; 0; 0]
  = Some ("/" +++ slashJoin ["uart"]).
Proof.
  apply (full_path_restarts_at_the_last_root_name
           (Node "/" [Node "soc" [Node "/" [Node "uart" [] []] []] []] [])
           [0; 0; 0] ["/"; "soc"] ["uart"]).
  - reflexivity.
  - repeat constructor. discriminate.
Defined.

Lemma compareProperties_paths (b o : DeviceTreeNode) (p : string) :
  Forall (fun e => path e = p) (compareProperties b o p).
Proof.
  unfold compareProperties. apply Forall_app. split;
    apply Forall_forall; intros e He; apply in_flat_map in He;
    destruct He as [[k prop] [_ He]]; simpl in He.
  - destruct (map_find k _) as [it | ].
    + destruct (negb (propertiesEqual it prop)); [ | destruct He].
      destruct He as [<- | []]. reflexivity.
    + destruct He as [<- | []]. reflexivity.
  - destruct (map_find k _); [destruct He | ].
    destruct He as [<- | []]. reflexivity.
Qed.

Lemma below_child (p k : string) (e : DiffEntry) :
  (path e = p +++ "/" +++ k \/ exists t, path e = (p +++ "/" +++ k) +++ "/" +++ t) ->
  path e = p \/ exists t, path e = p +++ "/" +++ t.
Proof.
  intros [H | [t H]]; right.
  - now exists k.
  - exists (k +++ "/" +++ t). rewrite H. now rewrite !append_assoc.
Qed.

Lemma compareNodes_paths (fuel : nat) :
  forall (b o : option DeviceTreeNode) (p : string) (entries : list DiffEntry),
    compareNodes fuel b o p = Some entries ->
    Forall (fun e => path e = p \/ exists t, path e = p +++ "/" +++ t) entries.
Proof.
  induction fuel as [ | fuel IH]; intros b o p entries H; [discriminate | ].
  destruct b as [base | ], o as [overlay | ]; cbn [compareNodes] in H.
  - destruct (for_each (map_of_list getName (getChildren overlay)) _)
      as [fromOverlay | ] eqn:H1; [ | discriminate].
    destruct (for_each (map_of_list getName (getChildren base)) _)
      as [fromBase | ] eqn:H2; [ | discriminate].
    inversion H; subst. apply Forall_app. split.
    { eapply Forall_impl; [ | apply compareProperties_paths].
      intros e He. now left. }
    apply Forall_app. split.
    + eapply for_each_Forall; [ | exact H1].
      intros [k c] out _ Hout. simpl in Hout. apply IH in Hout.
      eapply Forall_impl; [ | exact Hout]. intros e. apply below_child.
    + eapply for_each_Forall; [ | exact H2].
      intros [k c] out _ Hout. simpl in Hout.
      destruct (map_find k _).
      * inversion Hout. constructor.
      * apply IH in Hout.
        eapply Forall_impl; [ | exact Hout]. intros e. apply below_child.
  - destruct (for_each (getChildren base) _) as [outs | ] eqn:H1;
      [ | discriminate].
    inversion H; subst. constructor; [now left | ].
    eapply for_each_Forall; [ | exact H1].
    intros c out _ Hout. apply IH in Hout.
    eapply Forall_impl; [ | exact Hout]. intros e. apply below_child.
  - destruct (for_each (getChildren overlay) _) as [outs | ] eqn:H1;
      [ | discriminate].
    inversion H; subst. constructor; [now left | ].
    eapply for_each_Forall; [ | exact H1].
    intros c out _ Hout. apply IH in Hout.
    eapply Forall_impl; [ | exact Hout]. intros e. apply below_child.
  - inversion H. constructor.
Qed.

(** X20. Every entry of a diff carries the path "/" when it concerns the
    root and a path that starts with two separators when it concerns
    anything below it: the engine joins the root path "/" and a name with
    another separator. *)
Theorem diff_paths_start_at_the_root (d : DeviceTreeDiff) :
  diffGenerated_ d = false ->
  exists d' entries,
    generateDiff d = Some (d', entries)
    /\ Forall (fun e => path e = "/" \/ exists t, path e = "//" +++ t) entries.
Proof.
  intro Hgen. destruct (generateDiff_total d) as [d' [entries H]].
  exists d', entries. split; [exact H | ].
  unfold generateDiff in H. rewrite Hgen in H.
  unfold generateDiffInternal in H.
  destruct (baseTree_ d) as [base | ].
  - destruct (overlayTree_ d) as [overlay | ].
    + destruct (compareNodes _ _ _ _) as [es | ] eqn:Hc; [ | discriminate].
      inversion H; subst. cbn [diffCache_].
      apply compareNodes_paths in Hc. exact Hc.
    + inversion H; subst. constructor.
  - inversion H; subst. constructor.
Qed.

Lemma diff_paths_start_at_the_root_witness :
  exists d' entries,
    generateDiff (newDiff (Some scenarioC_base) (Some scenarioC_overlay))
    = Some (d', entries)
    /\ Forall (fun e => path e = "/" \/ exists t, path e = "//" +++ t) entries.
Proof.
  apply (diff_paths_start_at_the_root
           (newDiff (Some scenarioC_base) (Some scenarioC_overlay))).
  reflexivity.
Defined.

(** ** Rendering a value and reading it back *)

Lemma string_forall_app (test : ascii -> bool) (a b : string) :
  string_forall test (a +++ b) = string_forall test a && string_forall test b.
Proof.
  induction a as [ | c a IH]; simpl; [reflexivity | ].
  now rewrite IH, andb_assoc.
Qed.

Lemma string_forall_impl (test1 test2 : ascii -> bool) (s : string) :
  (forall c, test1 c = true -> test2 c = true) ->
  string_forall test1 s = true -> string_forall test2 s = true.
Proof.
  intro H. induction s as [ | c s IH]; simpl; [reflexivity | ].
  intro Hs. apply andb_prop in Hs. destruct Hs as [Hc Hs].
  now rewrite (H c Hc), IH.
Qed.

(** The digits that [std::hex] writes for a positive number: they are
    hexadecimal digits, and read from the left they give the number back. *)
Lemma of_pos_digits :
  forall p : positive,
  exists D : string,
    D <> EmptyString
    /\ string_forall is_hex D = true
    /\ (forall rest, HexString.Raw.of_pos p rest = D +++ rest)
    /\ (forall rest acc count,
           take_hex (D +++ rest) acc count
           = take_hex rest (acc * 16 ^ Z.of_nat (String.length D) + Zpos p)%Z
                      (count + String.length D)).
Proof.
  fix IH 1. intro p.
  do 4 try destruct p as [p | p | ];
    match goal with
    | |- exists D, _ /\ _ /\ (forall rest, HexString.Raw.of_pos ?q rest = _) /\ _ =>
        let t := eval cbn in (HexString.Raw.of_pos q EmptyString) in
        lazymatch t with
        | HexString.Raw.of_pos _ (String ?d _) =>
            destruct (IH p) as [D' [Hne [Hall [Hof Htake]]]];
            exists (D' +++ str1 d);
            (split; [destruct D'; discriminate | ]);
            (split; [rewrite string_forall_app, Hall; reflexivity | ]);
            split;
            [ intro rest; cbn [HexString.Raw.of_pos]; rewrite Hof, append_assoc;
              reflexivity
            | intros rest acc count; rewrite append_assoc, Htake;
              cbn [append str1 take_hex];
              match goal with
              | |- context [HexString.ascii_to_digit ?c] =>
                  let v := eval vm_compute in (HexString.ascii_to_digit c) in
                  change (HexString.ascii_to_digit c) with v
              end;
              cbv iota; rewrite append_length; cbn [String.length str1];
              rewrite Nat2Z.inj_add, Z.pow_add_r by lia;
              change (16 ^ Z.of_nat 1)%Z with 16%Z;
              f_equal; lia ]
        | ?s =>
            exists s;
            (split; [discriminate | ]);
            (split; [reflexivity | ]);
            split;
            [ intro rest; reflexivity
            | intros rest acc count; cbn [append take_hex];
              match goal with
              | |- context [HexString.ascii_to_digit ?c] =>
                  let v := eval vm_compute in (HexString.ascii_to_digit c) in
                  change (HexString.ascii_to_digit c) with v
              end;
              cbv iota; cbn [String.length];
              change (16 ^ Z.of_nat 1)%Z with 16%Z;
              f_equal; lia ]
        end
    end.
Qed.

Lemma substring_full (s : string) : String.substring 0 (String.length s) s = s.
Proof. induction s as [ | c s IH]; simpl; [reflexivity | now rewrite IH]. Qed.

Lemma substring_prefix (a b : string) :
  String.substring 0 (String.length a) (a +++ b) = a.
Proof.
  induction a as [ | c a IH]; simpl; [destruct b; reflexivity | now rewrite IH].
Qed.

Lemma substr_from_app (a b : string) :
  substr_from (String.length a) (a +++ b) = b.
Proof.
  unfold substr_from. rewrite append_length.
  replace (String.length a + String.length b - String.length a)
    with (String.length b) by lia.
  induction a as [ | c a IH]; simpl; [apply substring_full | exact IH].
Qed.

Lemma get_append_end (a : string) (c : ascii) (rest : string) :
  String.get (String.length a) (a +++ String c rest) = Some c.
Proof. induction a as [ | x a IH]; simpl; [reflexivity | exact IH]. Qed.

Lemma rtrim_keeps (s : string) (c : ascii) :
  is_blank c = false -> rtrim (s +++ str1 c) = s +++ str1 c.
Proof.
  intro Hc. induction s as [ | x s IH]; simpl.
  - now rewrite Hc.
  - rewrite IH. destruct (s +++ str1 c) eqn:E; [ | reflexivity].
    destruct s; discriminate.
Qed.

Lemma rtrim_app_blank (s : string) : rtrim (s +++ " ") = rtrim s.
Proof. induction s as [ | x s IH]; simpl; [reflexivity | now rewrite IH]. Qed.

Lemma find_char_absent (c : ascii) (s : string) :
  string_forall (fun x => negb (Ascii.eqb x c)) s = true ->
  find (str1 c) s = None.
Proof.
  unfold find, str1. induction s as [ | b s IH]; simpl; [reflexivity | ].
  intro H. apply andb_prop in H. destruct H as [Hb Hs].
  apply negb_true_iff, Ascii.eqb_neq in Hb.
  destruct (ascii_dec c b) as [E | _]; [congruence | ].
  now rewrite (IH Hs).
Qed.

Lemma find_char_after (c : ascii) (a rest : string) :
  string_forall (fun x => negb (Ascii.eqb x c)) a = true ->
  find (str1 c) (a +++ String c rest) = Some (String.length a).
Proof.
  unfold find, str1. induction a as [ | b a IH]; simpl.
  - intros _. destruct (ascii_dec c c) as [_ | Hne]; [ | congruence].
    destruct rest; reflexivity.
  - intro H. apply andb_prop in H. destruct H as [Hb Ha].
    apply negb_true_iff, Ascii.eqb_neq in Hb.
    destruct (ascii_dec c b) as [E | _]; [congruence | ].
    now rewrite (IH Ha).
Qed.

Lemma getlines_token_then (d : ascii) (token rest : string) :
  string_forall (fun x => negb (Ascii.eqb x d)) token = true ->
  getlines d (token +++ String d rest) = token :: getlines d rest.
Proof.
  induction token as [ | c token IH]; simpl; intro H.
  - now rewrite Ascii.eqb_refl.
  - apply andb_prop in H. destruct H as [Hc Ht].
    apply negb_true_iff in Hc. now rewrite Hc, (IH Ht).
Qed.

Lemma getlines_token (d : ascii) (token : string) :
  string_forall (fun x => negb (Ascii.eqb x d)) token = true ->
  token <> EmptyString ->
  getlines d token = [token].
Proof.
  induction token as [ | c token IH]; simpl; intros H Hne; [congruence | ].
  apply andb_prop in H. destruct H as [Hc Ht].
  apply negb_true_iff in Hc. rewrite Hc.
  destruct token as [ | c' token']; [reflexivity | ].
  rewrite (IH Ht); [reflexivity | discriminate].
Qed.

Lemma getlines_join {A : Type} (item : A -> string) (l : list A) :
  (forall x, In x l ->
             item x <> EmptyString
             /\ string_forall (fun c => negb (Ascii.eqb c " "%char)) (item x) = true) ->
  getlines " "%char (join_items item l) = map item l.
Proof.
  induction l as [ | x rest IH]; intro H; [reflexivity | ].
  destruct (H x (or_introl eq_refl)) as [Hne Hsp].
  destruct rest as [ | y rest'].
  - simpl. now apply getlines_token.
  - change (join_items item (x :: y :: rest'))
      with (item x +++ String " "%char (join_items item (y :: rest'))).
    rewrite getlines_token_then by assumption.
    rewrite IH; [reflexivity | ]. intros z Hz. apply H. now right.
Qed.

Lemma string_forall_join {A : Type} (test : ascii -> bool) (item : A -> string)
      (l : list A) :
  test " "%char = true ->
  (forall x, In x l -> string_forall test (item x) = true) ->
  string_forall test (join_items item l) = true.
Proof.
  intro Hsp. induction l as [ | x rest IH]; intro H; [reflexivity | ].
  destruct rest as [ | y rest'].
  - simpl. apply H. now left.
  - change (join_items item (x :: y :: rest'))
      with (item x +++ String " "%char (join_items item (y :: rest'))).
    rewrite string_forall_app. cbn [string_forall].
    rewrite (H x (or_introl eq_refl)), Hsp, IH; [reflexivity | ].
    intros z Hz. apply H. now right.
Qed.

(** What a hexadecimal digit is not. *)
Lemma hex_char_facts (c : ascii) :
  is_hex c = true ->
  is_space c = false
  /\ Ascii.eqb c "-"%char = false /\ Ascii.eqb c "+"%char = false
  /\ Ascii.eqb c "x"%char = false /\ Ascii.eqb c "X"%char = false
  /\ Ascii.eqb c " "%char = false /\ Ascii.eqb c backslash = false.
Proof.
  destruct c as [[ | ] [ | ] [ | ] [ | ] [ | ] [ | ] [ | ] [ | ]];
    vm_compute; intro H; try discriminate H; repeat split; reflexivity.
Qed.

Lemma stoul16_digits (D : string) (v : Z) :
  D <> EmptyString ->
  string_forall is_hex D = true ->
  take_hex D 0%Z 0 = (v, String.length D) ->
  (0 <= v < 2 ^ 64)%Z ->
  stoul16 D = Some v.
Proof.
  intros Hne Hall Htake Hv. unfold stoul16.
  destruct D as [ | c0 D0]; [congruence | ].
  cbn [string_forall] in Hall. apply andb_prop in Hall.
  destruct Hall as [Hc0 Hall].
  destruct (hex_char_facts c0 Hc0) as [Hsp [Hm [Hp _]]].
  cbn [skip_space]. rewrite Hsp, Hm, Hp.
  assert (match String c0 D0 with
          | String z (String x (String d rest)) =>
              if Ascii.eqb z "0"%char
                 && (Ascii.eqb x "x"%char || Ascii.eqb x "X"%char) && is_hex d
              then String d rest else String c0 D0
          | _ => String c0 D0
          end = String c0 D0) as Hprefix.
  { destruct D0 as [ | x [ | d rest]]; try reflexivity.
    cbn [string_forall] in Hall. apply andb_prop in Hall.
    destruct Hall as [Hx _].
    destruct (hex_char_facts x Hx) as [_ [_ [_ [Hx1 [Hx2 _]]]]].
    rewrite Hx1, Hx2. cbn [orb]. now rewrite andb_false_r. }
  rewrite Hprefix, Htake. cbn [String.length Nat.eqb].
  destruct (2 ^ 64 <=? v)%Z eqn:E; [apply Z.leb_le in E; lia | reflexivity].
Qed.

(** The digits written for a cell are read back as the cell. *)
Lemma hex_digits_read_back (c : Z) :
  (0 <= c < 2 ^ 64)%Z ->
  hex_digits c <> EmptyString
  /\ string_forall is_hex (hex_digits c) = true
  /\ stoul16 (hex_digits c) = Some c.
Proof.
  intro Hc. destruct c as [ | p | p]; [repeat split; discriminate | | lia].
  unfold hex_digits.
  destruct (of_pos_digits p) as [D [Hne [Hall [Hof Htake]]]].
  rewrite Hof, append_empty_r.
  split; [exact Hne | ]. split; [exact Hall | ].
  apply stoul16_digits; try assumption.
  specialize (Htake EmptyString 0%Z 0). rewrite append_empty_r in Htake.
  rewrite Htake. reflexivity.
Qed.

Lemma cell_tokens_read_back (what : string) (cells : list Z) :
  Forall (fun c => (0 <= c < 2 ^ 32)%Z) cells ->
  DTSParser.parseTokens (2 ^ 32) what
                        (map (fun c => "0x" +++ hex_digits c) cells)
  = Ok cells.
Proof.
  induction 1 as [ | c rest Hc Hrest IH]; [reflexivity | ].
  cbn [map DTSParser.parseTokens].
  destruct (hex_digits_read_back c) as [Hne [Hall Hread]]; [lia | ].
  change (String.eqb ("0x" +++ hex_digits c) EmptyString) with false.
  cbv iota.
  change (String.substring 0 2 ("0x" +++ hex_digits c))
    with (String.substring 0 (String.length "0x") ("0x" +++ hex_digits c)).
  rewrite substring_prefix, String.eqb_refl.
  change (substr_from 2 ("0x" +++ hex_digits c))
    with (substr_from (String.length "0x") ("0x" +++ hex_digits c)).
  rewrite substr_from_app, Hread, IH. cbn [bind].
  now rewrite Z.mod_small by lia.
Qed.

Lemma byte_token_reads_back (b : byte) :
  hex_digits_w2 (byte_to_Z b) <> EmptyString
  /\ string_forall (fun c => negb (Ascii.eqb c " "%char)
                             && negb (Ascii.eqb c backslash))
                   ("0x" +++ hex_digits_w2 (byte_to_Z b)) = true
  /\ String.substring 0 2 ("0x" +++ hex_digits_w2 (byte_to_Z b)) = "0x"
  /\ stoul16 (substr_from 2 ("0x" +++ hex_digits_w2 (byte_to_Z b)))
     = Some (byte_to_Z b)
  /\ DTSParser.Z_to_byte (byte_to_Z b mod 2 ^ 8) = b.
Proof.
  destruct b; vm_compute; repeat split; discriminate.
Qed.

Lemma byte_tokens_read_back (what : string) (binary : list byte) :
  DTSParser.parseTokens (2 ^ 8) what
    (map (fun b => "0x" +++ hex_digits_w2 (byte_to_Z b)) binary)
  = Ok (map (fun b => (byte_to_Z b mod 2 ^ 8)%Z) binary).
Proof.
  induction binary as [ | b rest IH]; [reflexivity | ].
  destruct (byte_token_reads_back b) as [_ [_ [Hsub [Hread _]]]].
  cbn [map DTSParser.parseTokens].
  change (String.eqb ("0x" +++ hex_digits_w2 (byte_to_Z b)) EmptyString)
    with false.
  cbv iota. rewrite Hsub. cbn [String.eqb Ascii.eqb Bool.eqb].
  rewrite Hread, IH. reflexivity.
Qed.

Lemma enclosed_value (o cl : ascii) (J : string) :
  let W := String o (J +++ str1 cl) in
  String.eqb W EmptyString = false
  /\ char_is W (String.length W - 1) cl = true
  /\ String.substring 1 (String.length W - 2) W = J.
Proof.
  cbv zeta. split; [reflexivity | ].
  assert (String.length (String o (J +++ str1 cl)) = S (S (String.length J))) as Hl.
  { cbn [String.length]. rewrite append_length. cbn [String.length str1]. lia. }
  rewrite Hl. split.
  - replace (S (S (String.length J)) - 1) with (S (String.length J)) by lia.
    unfold char_is. cbn [String.get]. unfold str1.
    now rewrite get_append_end, Ascii.eqb_refl.
  - replace (S (S (String.length J)) - 2) with (String.length J) by lia.
    cbn [String.substring]. apply substring_prefix.
Qed.

(** The line [name = W;] is read as the name and the value text [W]. *)
Lemma property_line_is_read (stream : istream) (name W' : string) (w0 : ascii) :
  plain_name name = true ->
  is_blank w0 = false ->
  string_forall (fun c => negb (Ascii.eqb c backslash)) (String w0 W') = true ->
  let line := name +++ " = " +++ String w0 W' +++ ";" in
  find "=" line = Some (String.length name + 1)
  /\ rtrim (ltrim (String.substring 0 (String.length name + 1) line)) = name
  /\ String.eqb name EmptyString = false
  /\ DTSParser.parseDTSValue stream line = (String w0 W', stream).
Proof.
  intros Hname Hw0 Hback. cbv zeta.
  unfold plain_name in Hname. apply andb_prop in Hname.
  destruct Hname as [Hname Hrtrim]. apply andb_prop in Hname.
  destruct Hname as [Hnoeq Hfirst]. apply String.eqb_eq in Hrtrim.
  set (W := String w0 W') in *.
  assert (name +++ " = " +++ W +++ ";"
          = (name +++ " ") +++ String "="%char (String " "%char (W +++ ";")))
    as Hline by (rewrite append_assoc; reflexivity).
  assert (String.length (name +++ " ") = String.length name + 1) as Hlen
      by (rewrite append_length; reflexivity).
  assert (find "=" (name +++ " = " +++ W +++ ";")
          = Some (String.length name + 1)) as Hfind.
  { rewrite Hline, <- Hlen. apply (find_char_after "="%char).
    rewrite string_forall_app, Hnoeq. reflexivity. }
  split; [exact Hfind | ].
  split.
  { rewrite Hline, <- Hlen, substring_prefix.
    destruct name as [ | c r]; [discriminate | ].
    apply negb_true_iff in Hfirst.
    cbn [append ltrim]. rewrite Hfirst.
    change (String c (r +++ " ")) with (String c r +++ " ").
    now rewrite rtrim_app_blank. }
  split; [destruct name; [discriminate | reflexivity] | ].
  assert (name +++ " = " +++ W +++ ";"
          = ((name +++ " ") +++ "=") +++ String " "%char (W +++ ";")) as Hline2
      by (rewrite !append_assoc; reflexivity).
  assert (String.length ((name +++ " ") +++ "=") = String.length name + 1 + 1)
    as Hlen2 by (rewrite append_length, Hlen; reflexivity).
  assert (substr_from (String.length name + 1 + 1) (name +++ " = " +++ W +++ ";")
          = String " "%char (W +++ ";")) as Hsub.
  { rewrite Hline2, <- Hlen2. apply substr_from_app. }
  assert (rtrim (ltrim (String " "%char (W +++ ";"))) = W +++ str1 ";"%char)
    as Htrim.
  { unfold W. cbn [append ltrim]. change (is_blank " "%char) with true.
    cbv iota. rewrite Hw0.
    change (String w0 (W' +++ ";")) with (String w0 W' +++ str1 ";"%char).
    now apply rtrim_keeps. }
  assert (String.length (W +++ str1 ";"%char) - 1 = String.length W) as Hlast
      by (rewrite append_length; cbn [String.length str1]; lia).
  unfold DTSParser.parseDTSValue. cbv zeta. rewrite Hfind, Hsub, Htrim, Hlast.
  assert (char_is (W +++ str1 ";"%char) (String.length W) ";"%char = true) as Hsemi.
  { unfold char_is, str1. now rewrite get_append_end. }
  rewrite Hsemi, substring_prefix.
  unfold contains. now rewrite (find_char_absent backslash W Hback).
Qed.

Lemma map_read_back (binary : list byte) :
  map DTSParser.Z_to_byte (map (fun b => (byte_to_Z b mod 2 ^ 8)%Z) binary)
  = binary.
Proof.
  induction binary as [ | b rest IH]; [reflexivity | ].
  cbn [map]. rewrite IH.
  destruct (byte_token_reads_back b) as [_ [_ [_ [_ Hb]]]]. now rewrite Hb.
Qed.

(** X21. A property written as the line [name = value;], with the value as
    [getValueAsString] renders it, is read by the text decoder as the same
    property, for a name with no equals sign and no blank at its ends and a
    value that is a string without backslash, a byte sequence, or 32-bit
    cells. *)
Theorem rendered_property_reads_back
        (stream : istream) (name : string) (v : PropertyValue) :
  plain_name name = true ->
  reads_back v = true ->
  DTSParser.parseDTSProperty
    stream (name +++ " = " +++ getValueAsString (mkProperty name v) +++ ";")
  = (Ok (mkProperty name v), stream).
Proof.
  intros Hname Hv.
  assert (forall (w0 : ascii) (W' : string) (value : PropertyValue),
             getValueAsString (mkProperty name v) = String w0 W' ->
             is_blank w0 = false ->
             string_forall (fun c => negb (Ascii.eqb c backslash)) (String w0 W')
             = true ->
             (let value := String w0 W' in
              let len := String.length value in
              let inner := String.substring 1 (len - 2) value in
              if String.eqb value EmptyString then Ok (VString EmptyString)
              else if char_is value 0 dquote && char_is value (len - 1) dquote
              then Ok (VString inner)
              else if char_is value 0 "<"%char && char_is value (len - 1) ">"%char
              then
                cells <- DTSParser.parseTokens (2 ^ 32) "Invalid cell value: "
                                               (getlines " "%char inner) ;;
                Ok (VCells cells)
              else if char_is value 0 "["%char && char_is value (len - 1) "]"%char
              then
                binary <- DTSParser.parseTokens (2 ^ 8) "Invalid binary value: "
                                                (getlines " "%char inner) ;;
                Ok (VBinary (map DTSParser.Z_to_byte binary))
              else Ok (VString value)) = Ok v ->
             DTSParser.parseDTSProperty
               stream
               (name +++ " = " +++ getValueAsString (mkProperty name v) +++ ";")
             = (Ok (mkProperty name v), stream)) as Hread.
  { intros w0 W' _ HW Hw0 Hback Hclass. rewrite HW.
    destruct (property_line_is_read stream name W' w0 Hname Hw0 Hback)
      as [Hfind [Hprop [Hne Hvalue]]].
    unfold DTSParser.parseDTSProperty. rewrite Hfind, Hprop, Hne, Hvalue.
    cbv zeta in Hclass. cbv zeta. rewrite Hclass. reflexivity. }
  destruct v as [s | binary | cells | cells]; [ | | | discriminate].
  - (* a string *)
    apply (Hread dquote (s +++ str1 dquote) (VString s)); try reflexivity.
    + cbn [string_forall]. rewrite string_forall_app. simpl in Hv. rewrite Hv.
      reflexivity.
    + destruct (enclosed_value dquote dquote s) as [He [Hlast Hinner]].
      cbv zeta in *. rewrite He, Hlast, Hinner.
      unfold char_is at 1. cbn [String.get]. now rewrite Ascii.eqb_refl.
  - (* bytes *)
    set (J := join_items (fun b => "0x" +++ hex_digits_w2 (byte_to_Z b)) binary).
    apply (Hread "["%char (J +++ "]") (VBinary binary)); try reflexivity.
    + cbn [string_forall]. rewrite string_forall_app.
      change (negb (Ascii.eqb "["%char backslash)) with true.
      rewrite andb_true_l, andb_true_iff. split; [ | reflexivity].
      apply string_forall_join; [reflexivity | ]. intros b _.
      destruct (byte_token_reads_back b) as [_ [Hall _]].
      eapply string_forall_impl; [ | exact Hall].
      intros c Hc. apply andb_prop in Hc. tauto.
    + destruct (enclosed_value "["%char "]"%char J) as [He [Hlast Hinner]].
      cbv zeta in *. change (J +++ "]") with (J +++ str1 "]"%char).
      rewrite He, Hlast, Hinner.
      change (char_is (String "["%char (J +++ str1 "]"%char)) 0 dquote) with false.
      change (char_is (String "["%char (J +++ str1 "]"%char)) 0 "<"%char) with false.
      change (char_is (String "["%char (J +++ str1 "]"%char)) 0 "["%char) with true.
      cbn [andb]. unfold J. rewrite getlines_join.
      * rewrite byte_tokens_read_back. cbn [bind]. now rewrite map_read_back.
      * intros b _. destruct (byte_token_reads_back b) as [_ [Hall _]].
        split; [discriminate | ].
        eapply string_forall_impl; [ | exact Hall].
        intros c Hc. apply andb_prop in Hc. tauto.
  - (* cells *)
    simpl in Hv.
    assert (Forall (fun c => (0 <= c < 2 ^ 32)%Z) cells) as Hrange.
    { apply Forall_forall. intros c Hc. rewrite forallb_forall in Hv.
      specialize (Hv c Hc). apply andb_prop in Hv. destruct Hv as [H1 H2].
      apply Z.leb_le in H1. apply Z.ltb_lt in H2. lia. }
    assert (forall c, In c cells ->
                      "0x" +++ hex_digits c <> EmptyString
                      /\ string_forall
                           (fun x => negb (Ascii.eqb x " "%char)
                                     && negb (Ascii.eqb x backslash))
                           ("0x" +++ hex_digits c) = true) as Htoken.
    { intros c Hc. split; [discriminate | ].
      rewrite Forall_forall in Hrange. specialize (Hrange c Hc).
      destruct (hex_digits_read_back c) as [_ [Hall _]]; [lia | ].
      cbn [append string_forall].
      change (negb (Ascii.eqb "0"%char " "%char)
              && negb (Ascii.eqb "0"%char backslash)) with true.
      change (negb (Ascii.eqb "x"%char " "%char)
              && negb (Ascii.eqb "x"%char backslash)) with true.
      cbn [andb]. eapply string_forall_impl; [ | exact Hall].
      intros x Hx. destruct (hex_char_facts x Hx) as [_ [_ [_ [_ [_ [H1 H2]]]]]].
      now rewrite H1, H2. }
    set (J := join_items (fun c => "0x" +++ hex_digits c) cells).
    apply (Hread "<"%char (J +++ ">") (VCells cells)); try reflexivity.
    + cbn [string_forall]. rewrite string_forall_app.
      change (negb (Ascii.eqb "<"%char backslash)) with true.
      rewrite andb_true_l, andb_true_iff. split; [ | reflexivity].
      apply string_forall_join; [reflexivity | ]. intros c Hc.
      destruct (Htoken c Hc) as [_ Hall].
      eapply string_forall_impl; [ | exact Hall].
      intros x Hx. apply andb_prop in Hx. tauto.
    + destruct (enclosed_value "<"%char ">"%char J) as [He [Hlast Hinner]].
      cbv zeta in *. change (J +++ ">") with (J +++ str1 ">"%char).
      rewrite He, Hlast, Hinner.
      change (char_is (String "<"%char (J +++ str1 ">"%char)) 0 dquote) with false.
      change (char_is (String "<"%char (J +++ str1 ">"%char)) 0 "<"%char) with true.
      cbn [andb]. unfold J. rewrite getlines_join.
      * now rewrite cell_tokens_read_back.
      * intros c Hc. destruct (Htoken c Hc) as [Hne Hall].
        split; [exact Hne | ].
        eapply string_forall_impl; [ | exact Hall].
        intros x Hx. apply andb_prop in Hx. tauto.
Qed.

Lemma rendered_property_reads_back_witness :
  DTSParser.parseDTSProperty
    ["next line"]
    ("reg" +++ " = "
     +++ getValueAsString (mkProperty "reg" (VCells [2147483648%Z; 4096%Z]))
     +++ ";")
  = (Ok (mkProperty "reg" (VCells [2147483648%Z; 4096%Z])), ["next line"]).
Proof.
  apply (rendered_property_reads_back
           ["next line"] "reg" (VCells [2147483648%Z; 4096%Z]));
    reflexivity.
Defined.
